(** * The peer session manager (services/peerService.ts)

    A shallow embedding of [PeerService]: the three registries of links
    (active, pending incoming, pending outgoing), the handshake driven by the
    listeners that [setupDataListener] attaches to a channel, the user
    actions, and the broadcast fan-out.

    The transport (PeerJS) is outside the repository.  Its objects and calls
    appear here as follows.
    - A [DataConnection] is a heap object shared by the registries, the
      listeners and the transport; the registries hold handles into [heap].
    - [conn.send], [conn.close], [peer.connect] and [new Peer] are recorded
      in the trace of a call; so is every call of a registered callback,
      which is application code.
    - The transport calls the listeners of a channel from inside its own
      calls: [conn.close()] on an open channel reports the close at once, so
      the [close] listener of the service runs inside the call; a [send]
      that fails is caught inside [send], which closes the channel there
      and then, with the same effect.  Nothing is thrown.
    - A peer made without an identifier has none until the transport's
      server gives it one.
    - Console output is not modelled. *)

From stdpp Require Import base option list strings.

Open Scope string_scope.
Open Scope list_scope.

(** ** JavaScript values received from and sent to a channel *)

(* No induction over values is needed: they are only taken apart at the top. *)
Unset Elimination Schemes.
Inductive JsVal : Type :=
  | VUndefined
  | VNull
  | VBool (b : bool)
  | VNum (n : Z)
  | VStr (s : string)
  | VArr (items : list JsVal)
  | VObj (fields : list (string * JsVal)).
Set Elimination Schemes.

Inductive exn : Type :=
  | TypeError.       (* property read on [undefined] or [null] *)

Fixpoint field (k : string) (fields : list (string * JsVal)) : option JsVal :=
  match fields with
  | [] => None
  | (k', v) :: rest => if decide (k = k') then Some v else field k rest
  end.

(** [v.k]: a [TypeError] on [undefined] and [null], the property's value on
    an object that has it, [undefined] otherwise (none of the properties the
    service reads -- [type], [payload], [name], [id] -- exists on a
    primitive or on an array). *)
Definition js_get (v : JsVal) (k : string) : exn + JsVal :=
  match v with
  | VUndefined | VNull => inl TypeError
  | VObj fields => inr (default VUndefined (field k fields))
  | _ => inr VUndefined
  end.

(** [v === s] for a string literal [s]. *)
Definition js_is_str (v : JsVal) (s : string) : bool :=
  match v with
  | VStr s' => String.eqb s' s
  | _ => false
  end.

Definition Array_isArray (v : JsVal) : bool :=
  match v with
  | VArr _ => true
  | _ => false
  end.

(** The envelope [{ type, payload }]. *)
Definition P2PMessage (type : string) (payload : JsVal) : JsVal :=
  VObj [("type", VStr type); ("payload", payload)].

(** ** JavaScript [Map] with string keys: entries in insertion order *)

Module JsMap.
Section Ops.
Context {V : Type}.

Fixpoint get (k : string) (m : list (string * V)) : option V :=
  match m with
  | [] => None
  | (k', v) :: m' => if decide (k = k') then Some v else get k m'
  end.

Definition has (k : string) (m : list (string * V)) : bool :=
  match get k m with
  | Some _ => true
  | None => false
  end.

(** [set] keeps the position of a key that is present and appends a new
    one. *)
Fixpoint set (k : string) (v : V) (m : list (string * V)) : list (string * V) :=
  match m with
  | [] => [(k, v)]
  | (k', v') :: m' =>
      if decide (k = k') then (k, v) :: m' else (k', v') :: set k v m'
  end.

Fixpoint delete (k : string) (m : list (string * V)) : list (string * V) :=
  match m with
  | [] => []
  | (k', v') :: m' =>
      if decide (k = k') then delete k m' else (k', v') :: delete k m'
  end.

Definition keys (m : list (string * V)) : list string := m.*1.
Definition values (m : list (string * V)) : list V := m.*2.
End Ops.
End JsMap.

(** ** Transport objects *)

(** A channel object is named by its index in the heap. *)
Abbreviation handle := nat.

(** What the transport's [send] does on a channel: hand the packet over, or
    fail, which closes the channel inside [send]. *)
Inductive SendMode : Type := Delivers | Fails.

(** The listener a channel has for [open]. *)
Inductive OpenListener : Type :=
  | SendHandshake     (* connectToPeer: send HANDSHAKE_INIT *)
  | SetupListener.    (* handleIncomingConnection: setupDataListener(conn) *)

Module DataConnection.
Record t : Type := mk {
  peer : string;            (* conn.peer, the remote identifier *)
  open : bool;              (* conn.open *)
  onOpen : option OpenListener;
  listening : bool;         (* data, close and error listeners attached *)
  sendMode : SendMode
}.

Definition set_open (b : bool) (c : t) : t :=
  mk (peer c) b (onOpen c) (listening c) (sendMode c).
Definition set_onOpen (l : OpenListener) (c : t) : t :=
  mk (peer c) (open c) (Some l) (listening c) (sendMode c).
Definition set_listening (b : bool) (c : t) : t :=
  mk (peer c) (open c) (onOpen c) b (sendMode c).
Definition set_sendMode (m : SendMode) (c : t) : t :=
  mk (peer c) (open c) (onOpen c) (listening c) m.

(** A channel as the transport creates it. *)
Definition fresh (remote : string) : t := mk remote false None false Delivers.
End DataConnection.

Module Peer.
Record t : Type := mk {
  id : option string;       (* peer.id: [null] until an identifier is known *)
  destroyed : bool
}.

(** [new Peer(userId, ...)]: the empty identifier asks the server for one. *)
Definition new (userId : string) : t :=
  mk (if bool_decide (userId = "") then None else Some userId) false.
End Peer.

(** ** The session event surface: one nullable callback per event *)

Inductive Slot : Type :=
  | MessageSlot | ConnectionRequestSlot | PeerConnectedSlot
  | PeerDisconnectedSlot | ChannelSyncSlot | BoardUpdateSlot
  | MessageDeletedSlot | TypingSlot.

Record Callbacks : Type := mkCallbacks {
  onMessageCallback : bool;
  onConnectionRequestCallback : bool;
  onPeerConnectedCallback : bool;
  onPeerDisconnectedCallback : bool;
  onChannelSyncCallback : bool;
  onBoardUpdateCallback : bool;
  onMessageDeletedCallback : bool;
  onTypingCallback : bool
}.

Definition no_callbacks : Callbacks :=
  mkCallbacks false false false false false false false false.

Definition registered (k : Slot) (cb : Callbacks) : bool :=
  match k with
  | MessageSlot => onMessageCallback cb
  | ConnectionRequestSlot => onConnectionRequestCallback cb
  | PeerConnectedSlot => onPeerConnectedCallback cb
  | PeerDisconnectedSlot => onPeerDisconnectedCallback cb
  | ChannelSyncSlot => onChannelSyncCallback cb
  | BoardUpdateSlot => onBoardUpdateCallback cb
  | MessageDeletedSlot => onMessageDeletedCallback cb
  | TypingSlot => onTypingCallback cb
  end.

Definition register (k : Slot) (cb : Callbacks) : Callbacks :=
  let '(mkCallbacks m r c d y b x t) := cb in
  match k with
  | MessageSlot => mkCallbacks true r c d y b x t
  | ConnectionRequestSlot => mkCallbacks m true c d y b x t
  | PeerConnectedSlot => mkCallbacks m r true d y b x t
  | PeerDisconnectedSlot => mkCallbacks m r c true y b x t
  | ChannelSyncSlot => mkCallbacks m r c d true b x t
  | BoardUpdateSlot => mkCallbacks m r c d y true x t
  | MessageDeletedSlot => mkCallbacks m r c d y b true t
  | TypingSlot => mkCallbacks m r c d y b x true
  end.

(** A call of a registered callback, with its arguments. *)
Inductive SessionEvent : Type :=
  | MessageArrived (payload : JsVal)
  | ConnectionRequested (peerId : string) (peerName : JsVal)
  | PeerConnected (peerId : string) (peerName : JsVal)
  | PeerDisconnected (peerId : string)
  | ChannelSyncReceived (payload : JsVal)
  | BoardUpdateReceived (payload : JsVal)
  | MessageDeleted (messageId : JsVal)
  | TypingStatusChanged (payload : JsVal).

Definition slot_of (e : SessionEvent) : Slot :=
  match e with
  | MessageArrived _ => MessageSlot
  | ConnectionRequested _ _ => ConnectionRequestSlot
  | PeerConnected _ _ => PeerConnectedSlot
  | PeerDisconnected _ => PeerDisconnectedSlot
  | ChannelSyncReceived _ => ChannelSyncSlot
  | BoardUpdateReceived _ => BoardUpdateSlot
  | MessageDeleted _ => MessageDeletedSlot
  | TypingStatusChanged _ => TypingSlot
  end.

(** What a call does to the outside, in order. *)
Inductive Effect : Type :=
  | NewPeer (userId : string)                        (* new Peer(userId, ...) *)
  | Connect (h : handle) (peerId : string) (name : string)  (* peer.connect *)
  | Send (h : handle) (packet : JsVal)               (* conn.send handed the packet over *)
  | Close (h : handle)                               (* conn.close() *)
  | Raise (e : SessionEvent).                        (* a callback is called *)

Definition is_raise (e : Effect) : bool :=
  match e with
  | Raise _ => true
  | _ => false
  end.

(** The session events among the effects of a call. *)
Definition raised (tr : list Effect) : list SessionEvent :=
  omap (λ e, match e with Raise ev => Some ev | _ => None end) tr.

(** The packets sent on channel [h]. *)
Definition sent_on (h : handle) (tr : list Effect) : list JsVal :=
  omap (λ e, match e with
             | Send h' p => if decide (h' = h) then Some p else None
             | _ => None
             end) tr.

(** ** The service *)

Record PeerService : Type := mkService {
  peer : option Peer.t;
  connections : list (string * handle);
  pendingIncoming : list (string * handle);
  pendingOutgoing : list (string * handle);
  callbacks : Callbacks;
  myName : string;
  heap : list DataConnection.t   (* the DataConnection objects, by handle *)
}.

Definition initial : PeerService :=
  mkService None [] [] [] no_callbacks "" [].

Definition set_peer (p : option Peer.t) (s : PeerService) : PeerService :=
  mkService p (connections s) (pendingIncoming s) (pendingOutgoing s)
            (callbacks s) (myName s) (heap s).
Definition set_connections (m : list (string * handle)) (s : PeerService) : PeerService :=
  mkService (peer s) m (pendingIncoming s) (pendingOutgoing s)
            (callbacks s) (myName s) (heap s).
Definition set_pendingIncoming (m : list (string * handle)) (s : PeerService) : PeerService :=
  mkService (peer s) (connections s) m (pendingOutgoing s)
            (callbacks s) (myName s) (heap s).
Definition set_pendingOutgoing (m : list (string * handle)) (s : PeerService) : PeerService :=
  mkService (peer s) (connections s) (pendingIncoming s) m
            (callbacks s) (myName s) (heap s).
Definition set_callbacks (cb : Callbacks) (s : PeerService) : PeerService :=
  mkService (peer s) (connections s) (pendingIncoming s) (pendingOutgoing s)
            cb (myName s) (heap s).
Definition set_myName (n : string) (s : PeerService) : PeerService :=
  mkService (peer s) (connections s) (pendingIncoming s) (pendingOutgoing s)
            (callbacks s) n (heap s).
Definition set_heap (hp : list DataConnection.t) (s : PeerService) : PeerService :=
  mkService (peer s) (connections s) (pendingIncoming s) (pendingOutgoing s)
            (callbacks s) (myName s) hp.

(** A handle that the transport never handed out reads as this channel. *)
Definition no_connection : DataConnection.t :=
  DataConnection.fresh "".

Definition conn (s : PeerService) (h : handle) : DataConnection.t :=
  default no_connection (heap s !! h).

Definition conn_peer (s : PeerService) (h : handle) : string :=
  DataConnection.peer (conn s h).

(** ** Calls: state, effects and exceptions *)

Inductive completion (A : Type) : Type :=
  | Return (a : A)
  | Throw (e : exn).
Arguments Return {A} a.
Arguments Throw {A} e.

Record outcome (A : Type) : Type := Outcome {
  result : completion A;
  final : PeerService;       (* the state when the call ends or throws *)
  effects : list Effect
}.
Arguments Outcome {A} result final effects.
Arguments result {A} o.
Arguments final {A} o.
Arguments effects {A} o.

Definition M (A : Type) : Type := PeerService → outcome A.

#[export] Instance M_ret : MRet M := λ A a s, Outcome (Return a) s [].

#[export] Instance M_bind : MBind M := λ A B f m s,
  match m s with
  | Outcome (Return a) s1 t1 =>
      match f a s1 with
      | Outcome r s2 t2 => Outcome r s2 (t1 ++ t2)
      end
  | Outcome (Throw e) s1 t1 => Outcome (Throw e) s1 t1
  end.

Definition throw {A : Type} (e : exn) : M A := λ s, Outcome (Throw e) s [].
Definition read {A : Type} (f : PeerService → A) : M A :=
  λ s, Outcome (Return (f s)) s [].
Definition update (f : PeerService → PeerService) : M unit :=
  λ s, Outcome (Return tt) (f s) [].
Definition emit (e : Effect) : M unit := λ s, Outcome (Return tt) s [e].

Definition lift {A : Type} (r : exn + A) : M A :=
  match r with
  | inl e => throw e
  | inr a => mret a
  end.

Definition when (b : bool) (m : M unit) : M unit :=
  if b then m else mret tt.

(** ** The service's code *)

Definition upd_connections (f : list (string * handle) → list (string * handle)) : M unit :=
  update (λ s, set_connections (f (connections s)) s).
Definition upd_pendingIncoming (f : list (string * handle) → list (string * handle)) : M unit :=
  update (λ s, set_pendingIncoming (f (pendingIncoming s)) s).
Definition upd_pendingOutgoing (f : list (string * handle) → list (string * handle)) : M unit :=
  update (λ s, set_pendingOutgoing (f (pendingOutgoing s)) s).
Definition upd_conn (h : handle) (f : DataConnection.t → DataConnection.t) : M unit :=
  update (λ s, set_heap (alter f h (heap s)) s).

(** [if (this.cb) this.cb(args)], for arguments that are already values. *)
Definition raise (e : SessionEvent) : M unit :=
  cb ← read callbacks;
  when (registered (slot_of e) cb) (emit (Raise e)).

(** The [close] listener of [setupDataListener]. *)
Definition on_close (h : handle) : M unit :=
  p ← read (λ s, conn_peer s h);
  upd_connections (JsMap.delete p);;
  upd_pendingIncoming (JsMap.delete p);;
  upd_pendingOutgoing (JsMap.delete p);;
  raise (PeerDisconnected p).

(** The [error] listener of [setupDataListener]. *)
Definition on_error (h : handle) : M unit :=
  p ← read (λ s, conn_peer s h);
  upd_connections (JsMap.delete p);;
  upd_pendingOutgoing (JsMap.delete p).

(** The transport closes a channel: [conn.open] becomes false and the
    [close] listeners run. *)
Definition channel_closes (h : handle) : M unit :=
  upd_conn h (DataConnection.set_open false);;
  c ← read (λ s, conn s h);
  when (DataConnection.listening c) (on_close h).

(** [conn.close()]: on an open channel the close is reported at once; on a
    channel that is not open nothing is reported. *)
Definition conn_close (h : handle) : M unit :=
  c ← read (λ s, conn s h);
  emit (Close h);;
  when (DataConnection.open c) (channel_closes h).

(** [conn.send(packet)]: the packet is handed over, or the send fails and
    the channel is closed inside the call. *)
Definition conn_send (h : handle) (packet : JsVal) : M unit :=
  c ← read (λ s, conn s h);
  match DataConnection.sendMode c with
  | Delivers => emit (Send h packet)
  | Fails => channel_closes h
  end.

(** [this.peer.connect(peerId, { metadata: { name } })]: the transport hands
    out a new channel to [peerId]. *)
Definition peer_connect (peerId name : string) : M handle :=
  h ← read (λ s, length (heap s));
  update (λ s, set_heap (heap s ++ [DataConnection.fresh peerId]) s);;
  emit (Connect h peerId name);;
  mret h.

Inductive InitResult : Type :=
  | Resolved (id : string)   (* Promise.resolve(userId) *)
  | Pending.                 (* settled later by the new peer's open or error *)

Definition initialize (userId userName : string) : M InitResult :=
  update (set_myName userName);;
  p ← read peer;
  match p with
  | Some p =>
      if negb (Peer.destroyed p) && bool_decide (Peer.id p = Some userId)
      then mret (Resolved userId)
      else
        emit (NewPeer userId);;
        update (set_peer (Some (Peer.new userId)));;
        mret Pending
  | None =>
      emit (NewPeer userId);;
      update (set_peer (Some (Peer.new userId)));;
      mret Pending
  end.

Definition isInitialized (s : PeerService) : bool :=
  match peer s with
  | Some p => negb (Peer.destroyed p)
  | None => false
  end.

Definition finalizeConnection (h : handle) (name : JsVal) : M unit :=
  p ← read (λ s, conn_peer s h);
  upd_connections (JsMap.set p h);;
  raise (PeerConnected p name).

(** [setupDataListener] attaches the three listeners below to the channel. *)
Definition setupDataListener (h : handle) : M unit :=
  upd_conn h (DataConnection.set_listening true).

(** The [data] listener. *)
Definition on_data (h : handle) (data : JsVal) : M unit :=
  let msg := data in
  type ← lift (js_get msg "type");
  if js_is_str type "HANDSHAKE_INIT" then
    payload ← lift (js_get msg "payload");
    peerName ← lift (js_get payload "name");
    p ← read (λ s, conn_peer s h);
    upd_pendingIncoming (JsMap.set p h);;
    raise (ConnectionRequested p peerName)
  else if js_is_str type "HANDSHAKE_ACCEPT" then
    payload ← lift (js_get msg "payload");
    peerName ← lift (js_get payload "name");
    p ← read (λ s, conn_peer s h);
    upd_pendingOutgoing (JsMap.delete p);;
    finalizeConnection h peerName
  else if js_is_str type "CHAT_MESSAGE" then
    cb ← read callbacks;
    when (onMessageCallback cb)
      (payload ← lift (js_get msg "payload");
       emit (Raise (MessageArrived payload)))
  else if js_is_str type "CHANNEL_SYNC" then
    cb ← read callbacks;
    when (onChannelSyncCallback cb)
      (payload ← lift (js_get msg "payload");
       when (Array_isArray payload) (emit (Raise (ChannelSyncReceived payload))))
  else if js_is_str type "BOARD_UPDATE" then
    cb ← read callbacks;
    when (onBoardUpdateCallback cb)
      (payload ← lift (js_get msg "payload");
       emit (Raise (BoardUpdateReceived payload)))
  else if js_is_str type "DELETE_MESSAGE" then
    cb ← read callbacks;
    when (onMessageDeletedCallback cb)
      (payload ← lift (js_get msg "payload");
       messageId ← lift (js_get payload "id");
       emit (Raise (MessageDeleted messageId)))
  else if js_is_str type "TYPING_STATUS" then
    cb ← read callbacks;
    when (onTypingCallback cb)
      (payload ← lift (js_get msg "payload");
       emit (Raise (TypingStatusChanged payload)))
  else mret tt.

Definition handshake_init (name : string) : JsVal :=
  P2PMessage "HANDSHAKE_INIT" (VObj [("name", VStr name)]).
Definition handshake_accept (name : string) : JsVal :=
  P2PMessage "HANDSHAKE_ACCEPT" (VObj [("name", VStr name)]).

(** The [open] listener of an outgoing channel. *)
Definition on_open_outgoing (h : handle) : M unit :=
  name ← read myName;
  conn_send h (handshake_init name).

(** The second half of [connectToPeer]: the new channel, its entry in
    [pendingOutgoing] and its listeners. *)
Definition invite (peerId : string) : M unit :=
  name ← read myName;
  h ← peer_connect peerId name;
  upd_pendingOutgoing (JsMap.set peerId h);;
  upd_conn h (DataConnection.set_onOpen SendHandshake);;
  setupDataListener h.

Definition connectToPeer (peerId : string) : M unit :=
  p ← read peer;
  match p with
  | None => mret tt
  | Some _ =>
      active ← read connections;
      if JsMap.has peerId active then mret tt
      else
        out ← read pendingOutgoing;
        match JsMap.get peerId out with
        | Some old => conn_close old
        | None => mret tt
        end;;
        invite peerId
  end.

Definition handleIncomingConnection (h : handle) : M unit :=
  upd_conn h (DataConnection.set_onOpen SetupListener).

Definition acceptConnection (peerId : string) : M unit :=
  inc ← read pendingIncoming;
  match JsMap.get peerId inc with
  | Some h =>
      name ← read myName;
      conn_send h (handshake_accept name);;
      upd_pendingIncoming (JsMap.delete peerId);;
      finalizeConnection h (VStr peerId)
  | None => mret tt
  end.

Definition rejectConnection (peerId : string) : M unit :=
  inc ← read pendingIncoming;
  match JsMap.get peerId inc with
  | Some h =>
      conn_close h;;
      upd_pendingIncoming (JsMap.delete peerId)
  | None => mret tt
  end.

Definition cancelRequest (peerId : string) : M unit :=
  out ← read pendingOutgoing;
  match JsMap.get peerId out with
  | Some h =>
      conn_close h;;
      upd_pendingOutgoing (JsMap.delete peerId)
  | None => mret tt
  end.

Definition disconnectPeer (peerId : string) : M unit :=
  active ← read connections;
  match JsMap.get peerId active with
  | Some h =>
      conn_close h;;
      upd_connections (JsMap.delete peerId);;
      raise (PeerDisconnected peerId)
  | None => mret tt
  end.

(** [this.connections.forEach((conn) => { if (conn.open) conn.send(packet) })]
    over the entries [m] that the map had when the loop began.  [visit] is
    one pass: [forEach] passes over an entry that was deleted before the
    loop reached it, and calls the function on the others. *)
Definition visit (packet : JsVal) (k : string) : M unit :=
  entry ← read (λ s, JsMap.get k (connections s));
  match entry with
  | Some h =>
      c ← read (λ s, conn s h);
      when (DataConnection.open c) (conn_send h packet)
  | None => mret tt
  end.

Fixpoint send_to_open (packet : JsVal) (m : list (string * handle)) : M unit :=
  match m with
  | [] => mret tt
  | (k, _) :: m' => visit packet k;; send_to_open packet m'
  end.

Definition fan_out (packet : JsVal) : M unit :=
  active ← read connections;
  send_to_open packet active.

Definition broadcast (message : JsVal) : M unit :=
  fan_out (P2PMessage "CHAT_MESSAGE" message).

Definition broadcastDelete (messageId : string) : M unit :=
  fan_out (P2PMessage "DELETE_MESSAGE" (VObj [("id", VStr messageId)])).

Definition syncChannels (channels : JsVal) : M unit :=
  fan_out (P2PMessage "CHANNEL_SYNC" channels).

Definition broadcastBoard (data : JsVal) : M unit :=
  fan_out (P2PMessage "BOARD_UPDATE" data).

Definition broadcastTyping (channelId : string) (isTyping : bool) : M unit :=
  p ← read peer;
  match p with
  | None => mret tt
  | Some p =>
      name ← read myName;
      fan_out (P2PMessage "TYPING_STATUS"
                 (VObj [("userId", from_option VStr VNull (Peer.id p));
                        ("userName", VStr name);
                        ("channelId", VStr channelId); ("isTyping", VBool isTyping)]))
  end.

(** [onMessage(cb)], [onConnectionRequest(cb)], ...: the slot now holds [cb]. *)
Definition on (k : Slot) : M unit :=
  update (λ s, set_callbacks (register k (callbacks s)) s).

(** ** The event loop

    Calls of the application and events of the transport reach the service
    one at a time.  An exception leaves a listener or a call; the state it
    leaves behind is the state the next event finds. *)

Inductive Event : Type :=
  (* calls of the application *)
  | Initialize (userId userName : string)
  | ConnectToPeer (peerId : string)
  | AcceptConnection (peerId : string)
  | RejectConnection (peerId : string)
  | CancelRequest (peerId : string)
  | DisconnectPeer (peerId : string)
  | Broadcast (message : JsVal)
  | BroadcastDelete (messageId : string)
  | SyncChannels (channels : JsVal)
  | BroadcastBoard (data : JsVal)
  | BroadcastTyping (channelId : string) (isTyping : bool)
  | On (k : Slot)
  (* events of the transport *)
  | PeerConnection (remote : string)   (* the peer's [connection] event *)
  | ConnOpen (h : handle)
  | ConnData (h : handle) (data : JsVal)
  | ConnClose (h : handle)
  | ConnError (h : handle)
  | PeerDestroyed
  | PeerOpened (id : string)           (* the peer's [open] event *)
  | SendCondition (h : handle) (mode : SendMode).

Definition step (e : Event) : M unit :=
  match e with
  | Initialize userId userName => initialize userId userName;; mret tt
  | ConnectToPeer peerId => connectToPeer peerId
  | AcceptConnection peerId => acceptConnection peerId
  | RejectConnection peerId => rejectConnection peerId
  | CancelRequest peerId => cancelRequest peerId
  | DisconnectPeer peerId => disconnectPeer peerId
  | Broadcast message => broadcast message
  | BroadcastDelete messageId => broadcastDelete messageId
  | SyncChannels channels => syncChannels channels
  | BroadcastBoard data => broadcastBoard data
  | BroadcastTyping channelId isTyping => broadcastTyping channelId isTyping
  | On k => on k
  | PeerConnection remote =>
      (* the listener exists once [initialize] has made a peer *)
      p ← read peer;
      match p with
      | None => mret tt
      | Some _ =>
          h ← read (λ s, length (heap s));
          update (λ s, set_heap (heap s ++ [DataConnection.fresh remote]) s);;
          handleIncomingConnection h
      end
  | ConnOpen h =>
      c ← read (λ s, conn s h);
      upd_conn h (DataConnection.set_open true);;
      match DataConnection.onOpen c with
      | Some SendHandshake => on_open_outgoing h
      | Some SetupListener =>
          (* the transport reports a channel open once: the listeners are
             attached once *)
          when (negb (DataConnection.listening c)) (setupDataListener h)
      | None => mret tt
      end
  | ConnData h data =>
      c ← read (λ s, conn s h);
      when (DataConnection.listening c) (on_data h data)
  | ConnClose h => channel_closes h
  | ConnError h =>
      c ← read (λ s, conn s h);
      when (DataConnection.listening c) (on_error h)
  | PeerDestroyed =>
      update (λ s, set_peer ((λ p, Peer.mk (Peer.id p) true) <$> peer s) s)
  | PeerOpened id =>
      (* a peer made without an identifier learns the one the server gave *)
      update (λ s, set_peer ((λ p, Peer.mk (Some (default id (Peer.id p)))
                                     (Peer.destroyed p)) <$> peer s) s)
  | SendCondition h mode => upd_conn h (DataConnection.set_sendMode mode)
  end.

(** The state and the effects after a sequence of events. *)
Fixpoint run (evs : list Event) (s : PeerService) : PeerService * list Effect :=
  match evs with
  | [] => (s, [])
  | e :: evs' =>
      match step e s with
      | Outcome _ s' tr =>
          match run evs' s' with
          | (s'', tr') => (s'', tr ++ tr')
          end
      end
  end.

Definition reachable (s : PeerService) : Prop :=
  ∃ evs, (run evs initial).1 = s.

(** ** Notions used in the statements *)

(** The entries of a registry under key [r]. *)
Definition entries (r : string) (m : list (string * handle)) : list (string * handle) :=
  filter (λ kv, kv.1 = r) m.
Arguments entries : simpl never.

(** The links of [r]: its entries in the three registries. *)
Definition link_count (s : PeerService) (r : string) : nat :=
  length (entries r (connections s))
  + length (entries r (pendingIncoming s))
  + length (entries r (pendingOutgoing s)).

(** Every entry of a registry is filed under the remote identifier of its
    channel, and the channel is one the transport handed out. *)
Definition keyed (hp : list DataConnection.t) (m : list (string * handle)) : Prop :=
  ∀ r h, JsMap.get r m = Some h → ∃ c, hp !! h = Some c ∧ DataConnection.peer c = r.

Record wf (s : PeerService) : Prop := mk_wf {
  wf_active : keyed (heap s) (connections s);
  wf_incoming : keyed (heap s) (pendingIncoming s);
  wf_outgoing : keyed (heap s) (pendingOutgoing s);
  wf_active_keys : NoDup (JsMap.keys (connections s));
  wf_incoming_keys : NoDup (JsMap.keys (pendingIncoming s));
  wf_outgoing_keys : NoDup (JsMap.keys (pendingOutgoing s))
}.

(** The active links whose channel reports open, in the order of the map. *)
Definition open_links (s : PeerService) : list handle :=
  filter (λ h, DataConnection.open (conn s h) = true) (JsMap.values (connections s)).

Definition send_fails (s : PeerService) (h : handle) : Prop :=
  DataConnection.sendMode (conn s h) = Fails.

#[export] Instance send_fails_dec s h : Decision (send_fails s h).
Proof. unfold send_fails. solve_decision. Defined.

(** What the loop of a fan-out call adds to the trace at an open active link
    [h] of the state [s] it starts in: the packet is handed over, or the
    send fails, the channel closes and its [close] listener runs. *)
Definition send_effects (s : PeerService) (packet : JsVal) (h : handle) : list Effect :=
  if decide (send_fails s h)
  then (if onPeerDisconnectedCallback (callbacks s)
        then [Raise (PeerDisconnected (conn_peer s h))] else [])
  else [Send h packet].

(** The open active links whose send fails, and their remote identifiers. *)
Definition failing_links (s : PeerService) : list handle :=
  filter (send_fails s) (open_links s).

Definition failing_peers (s : PeerService) : list string :=
  conn_peer s <$> failing_links s.

(** The kind tags of the wire format. *)
Definition kinds : list string :=
  [ "HANDSHAKE_INIT"; "HANDSHAKE_ACCEPT"; "CHAT_MESSAGE"; "CHANNEL_SYNC";
    "BOARD_UPDATE"; "DELETE_MESSAGE"; "TYPING_STATUS" ].

(** A message whose [type] can be read and is none of the seven kinds. *)
Definition unknown_kind (data : JsVal) : Prop :=
  ∃ t, js_get data "type" = inr t ∧ ∀ k, k ∈ kinds → t ≠ VStr k.

(** A CHANNEL_SYNC message whose payload is not an array. *)
Definition bad_channel_sync (data : JsVal) : Prop :=
  ∃ p, js_get data "type" = inr (VStr "CHANNEL_SYNC")
       ∧ js_get data "payload" = inr p ∧ Array_isArray p = false.

(** The state once the channel [h] reads as not open. *)
Definition shut (h : handle) (s : PeerService) : PeerService :=
  set_heap (alter (DataConnection.set_open false) h (heap s)) s.

(** A channel that one of the three registries holds under [r]. *)
Definition filed (s : PeerService) (r : string) (h : handle) : Prop :=
  JsMap.get r (connections s) = Some h
  ∨ JsMap.get r (pendingIncoming s) = Some h
  ∨ JsMap.get r (pendingOutgoing s) = Some h.

(** The state once the [close] listener has removed [p] from the registries. *)
Definition cleared (p : string) (s : PeerService) : PeerService :=
  set_pendingOutgoing (JsMap.delete p (pendingOutgoing s))
    (set_pendingIncoming (JsMap.delete p (pendingIncoming s))
       (set_connections (JsMap.delete p (connections s)) s)).

(** The state once the channel [h] has closed and its [close] listener has
    run, and the state a fan-out call leaves: the links that failed are
    gone. *)
Definition drop_link (s : PeerService) (h : handle) : PeerService :=
  cleared (conn_peer s h) (shut h s).

Definition after_sends (s : PeerService) : PeerService :=
  foldl drop_link s (failing_links s).

(** A call that adds no entry to the registry [X] and moves none: what the
    registry holds afterwards, it held before. *)
Definition keeps_or_drops {A : Type}
    (X : PeerService → list (string * handle)) (m : M A) : Prop :=
  ∀ s r h, JsMap.get r (X (final (m s))) = Some h → JsMap.get r (X s) = Some h.

(** The four actions on a link, the registry each one looks its link up in,
    and the call it makes. *)
Inductive LinkAction : Type := Accept | Reject | Cancel | Disconnect.

Definition required (a : LinkAction) (s : PeerService) : list (string * handle) :=
  match a with
  | Accept | Reject => pendingIncoming s
  | Cancel => pendingOutgoing s
  | Disconnect => connections s
  end.

Definition perform (a : LinkAction) (r : string) : M unit :=
  match a with
  | Accept => acceptConnection r
  | Reject => rejectConnection r
  | Cancel => cancelRequest r
  | Disconnect => disconnectPeer r
  end.

(** ** The application's lists of peers and requests (App.tsx)

    The callbacks that App registers with the service, and its handlers,
    change the lists through state updaters [prev => ...]; each updater is a
    function from the list it is given to the new list. *)

Module Channel.
Record t : Type := mk {
  id : string;
  name : string;
  type : string
}.
End Channel.

Module PeerUser.
Record t : Type := mk {
  id : string;
  name : string;
  isConnected : bool
}.
End PeerUser.

Module ConnectionRequest.
Record t : Type := mk {
  peerId : string;
  peerName : string
}.
End ConnectionRequest.

(** [onConnectionRequest]: [setPendingRequests(prev => ...)]. *)
Definition onConnectionRequest_pendingRequests (peerId peerName : string)
    (prev : list ConnectionRequest.t) : list ConnectionRequest.t :=
  match find (λ r, bool_decide (ConnectionRequest.peerId r = peerId)) prev with
  | Some _ => prev
  | None => prev ++ [ConnectionRequest.mk peerId peerName]
  end.

(** [onPeerConnected]: the three updaters, in the order of the source. *)
Definition onPeerConnected_pendingRequests (peerId : string)
    (prev : list ConnectionRequest.t) : list ConnectionRequest.t :=
  filter (λ r, ConnectionRequest.peerId r ≠ peerId) prev.

Definition onPeerConnected_sentRequests (peerId : string) (prev : list string) : list string :=
  filter (λ id, id ≠ peerId) prev.

(** [peerName || peerId]: the empty string is falsy. *)
Definition name_or_id (peerName peerId : string) : string :=
  if bool_decide (peerName = "") then peerId else peerName.

Definition onPeerConnected_peers (peerId peerName : string)
    (prev : list PeerUser.t) : list PeerUser.t :=
  match find (λ p, bool_decide (PeerUser.id p = peerId)) prev with
  | Some _ => prev
  | None => prev ++ [PeerUser.mk peerId (name_or_id peerName peerId) true]
  end.

(** [onPeerDisconnected]: [setPeers(prev => prev.filter(p => p.id !== peerId))]. *)
Definition onPeerDisconnected_peers (peerId : string) (prev : list PeerUser.t) : list PeerUser.t :=
  filter (λ p, PeerUser.id p ≠ peerId) prev.

(** [onChannelSync]: [setChannels(prev => ...)]. *)
Definition onChannelSync_channels (syncedChannels prev : list Channel.t) : list Channel.t :=
  let existingIds := Channel.id <$> prev in
  let newChannels := filter (λ c, Channel.id c ∉ existingIds) syncedChannels in
  prev ++ newChannels.

(** ** Stored messages (services/storageService.ts)

    [JSON.stringify] is the browser's; it is a parameter here. *)

(** [messages.slice(-500)] *)
Definition slice_last (n : nat) {A : Type} (l : list A) : list A :=
  drop (length l - n) l.

Section StorageService.
Context {Message : Type} (JSON_stringify : list Message → string).

(** The keys of [KEYS] and what [localStorage.setItem] is called with. *)
Definition KEYS_MESSAGES : string := "nexus_messages".

Definition saveMessages (messages : list Message) : string * string :=
  let recent := slice_last 500 messages in
  (KEYS_MESSAGES, JSON_stringify recent).
End StorageService.

(** Every channel in a registry has the listeners of [setupDataListener]. *)
Definition attached (hp : list DataConnection.t) (m : list (string * handle)) : Prop :=
  ∀ r h, JsMap.get r m = Some h →
         ∃ c, hp !! h = Some c ∧ DataConnection.listening c = true.

Record listened (s : PeerService) : Prop := mk_listened {
  listened_active : attached (heap s) (connections s);
  listened_incoming : attached (heap s) (pendingIncoming s);
  listened_outgoing : attached (heap s) (pendingOutgoing s)
}.

(** ** Scenarios *)

Definition after (evs : list Event) : PeerService := (run evs initial).1.

(** Alice has invited bob, and a channel from bob has opened. *)
Definition crossing : list Event :=
  [ Initialize "alice" "Alice"; On ConnectionRequestSlot; On PeerConnectedSlot;
    On PeerDisconnectedSlot;
    ConnectToPeer "bob";
    PeerConnection "bob"; ConnOpen 1 ].

(** Bob's own invitation arrives on that second channel. *)
Definition race : list Event :=
  crossing ++ [ ConnData 1 (handshake_init "Bob") ].

(** Bob has received alice's invitation. *)
Definition invited : list Event :=
  [ Initialize "bob" "Bob"; On ConnectionRequestSlot; On PeerConnectedSlot;
    PeerConnection "alice"; ConnOpen 0; ConnData 0 (handshake_init "Alice") ].

(** Alice has invited bob and nothing has come back. *)
Definition inviting : list Event :=
  [ Initialize "alice" "Alice"; On PeerDisconnectedSlot; ConnectToPeer "bob" ].

(** Alice's invitation to bob has gone out on the channel, which has opened. *)
Definition awaiting : list Event :=
  inviting ++ [ ConnOpen 0 ].

(** Alice has an active link with bob on channel 0; a second channel from bob
    is open. *)
Definition two_channels : list Event :=
  [ Initialize "alice" "Alice"; On PeerDisconnectedSlot;
    ConnectToPeer "bob"; ConnOpen 0; ConnData 0 (handshake_accept "Bob");
    PeerConnection "bob"; ConnOpen 1 ].

(** Alice has active links with bob and carol and a pending invitation to
    dave. *)
Definition two_peers : list Event :=
  [ Initialize "alice" "Alice";
    ConnectToPeer "bob"; ConnOpen 0; ConnData 0 (handshake_accept "Bob");
    ConnectToPeer "carol"; ConnOpen 1; ConnData 1 (handshake_accept "Carol");
    ConnectToPeer "dave"; ConnOpen 2 ].

(** The same, with a peer-disconnected callback, when the link to bob has
    broken: the next send on bob's channel fails. *)
Definition broken_link : list Event :=
  On PeerDisconnectedSlot :: two_peers ++ [ SendCondition 0 Fails ].

(** ** Registries: reading after writing *)

Section JsMapFacts.
Context {V : Type}.
Implicit Types (m : list (string * V)) (k : string) (v : V).

Lemma get_set k k' v m :
  JsMap.get k' (JsMap.set k v m) = if decide (k = k') then Some v else JsMap.get k' m.
Proof.
  induction m as [|[k0 v0] m IH]; simpl.
  - repeat case_decide; congruence.
  - repeat (case_decide; simpl); try congruence.
Qed.

Lemma get_set_eq k v m : JsMap.get k (JsMap.set k v m) = Some v.
Proof. rewrite get_set. by case_decide. Qed.

Lemma get_delete k k' m :
  JsMap.get k' (JsMap.delete k m) = if decide (k = k') then None else JsMap.get k' m.
Proof.
  induction m as [|[k0 v0] m IH]; simpl.
  - by case_decide.
  - repeat (case_decide; simpl); try congruence.
Qed.

Lemma get_delete_eq k m : JsMap.get k (JsMap.delete k m) = None.
Proof. rewrite get_delete. by case_decide. Qed.

Lemma has_get k m : JsMap.has k m = true ↔ is_Some (JsMap.get k m).
Proof.
  unfold JsMap.has. destruct (JsMap.get k m); split; intros H; eauto.
  - discriminate.
  - by destruct H.
Qed.

Lemma get_None_keys k m : JsMap.get k m = None ↔ k ∉ JsMap.keys m.
Proof.
  unfold JsMap.keys. induction m as [|[k0 v0] m IH]; simpl.
  - split; [intros _; apply not_elem_of_nil | done].
  - rewrite not_elem_of_cons. case_decide; subst.
    + split; [done | intros [? _]; congruence].
    + rewrite IH. tauto.
Qed.

Lemma keys_set_subseteq k v m x :
  x ∈ JsMap.keys (JsMap.set k v m) → x = k ∨ x ∈ JsMap.keys m.
Proof.
  unfold JsMap.keys. induction m as [|[k0 v0] m IH]; simpl.
  - rewrite list_elem_of_singleton. tauto.
  - case_decide; subst; simpl; rewrite !elem_of_cons; intuition.
Qed.

Lemma keys_delete_subseteq k m x :
  x ∈ JsMap.keys (JsMap.delete k m) → x ∈ JsMap.keys m.
Proof.
  unfold JsMap.keys. induction m as [|[k0 v0] m IH]; simpl; [done|].
  case_decide; subst; simpl; rewrite !elem_of_cons; intuition.
Qed.

Lemma NoDup_keys_set k v m : NoDup (JsMap.keys m) → NoDup (JsMap.keys (JsMap.set k v m)).
Proof.
  unfold JsMap.keys. induction m as [|[k0 v0] m IH]; simpl; intros Hnd.
  - apply NoDup_singleton.
  - apply NoDup_cons in Hnd as [Hin Hnd]. case_decide; subst; simpl.
    + by apply NoDup_cons.
    + apply NoDup_cons. split; [|by apply IH].
      intros Hx. apply keys_set_subseteq in Hx as [?|?]; [congruence | done].
Qed.

Lemma NoDup_keys_delete k m : NoDup (JsMap.keys m) → NoDup (JsMap.keys (JsMap.delete k m)).
Proof.
  unfold JsMap.keys. induction m as [|[k0 v0] m IH]; simpl; intros Hnd; [done|].
  apply NoDup_cons in Hnd as [Hin Hnd]. case_decide; subst; simpl; [by apply IH|].
  apply NoDup_cons. split; [|by apply IH].
  intros Hx. by apply keys_delete_subseteq in Hx.
Qed.
End JsMapFacts.

Section Entries.
Implicit Types (m : list (string * handle)) (r : string) (h : handle).

Lemma entries_get_None r m : JsMap.get r m = None → entries r m = [].
Proof.
  unfold entries. induction m as [|[k0 v0] m IH]; simpl; [done|].
  case_decide; [done|]. intros Hm. rewrite filter_cons_False; [by apply IH|].
  simpl. congruence.
Qed.

Lemma entries_get_Some r h m :
  NoDup (JsMap.keys m) → JsMap.get r m = Some h → entries r m = [(r, h)].
Proof.
  unfold entries, JsMap.keys. induction m as [|[k0 v0] m IH]; simpl; [done|].
  intros [Hin Hnd]%NoDup_cons. case_decide; subst.
  - intros [= ->]. rewrite filter_cons_True by done.
    f_equal. apply entries_get_None. by apply get_None_keys.
  - intros Hm. rewrite filter_cons_False by (simpl; congruence). by apply IH.
Qed.

Lemma entries_NoDup r m : NoDup (JsMap.keys m) → (length (entries r m) ≤ 1)%nat.
Proof.
  intros Hnd. destruct (JsMap.get r m) as [h|] eqn:Hm.
  - by rewrite (entries_get_Some r h m).
  - rewrite entries_get_None by done. simpl. lia.
Qed.
End Entries.

(** ** Registries stay keyed by the remote identifier *)

Section Keyed.
Implicit Types (hp : list DataConnection.t) (m : list (string * handle)).

Lemma keyed_nil hp : keyed hp [].
Proof. intros r h. discriminate. Qed.

Lemma keyed_alter hp m h f :
  (∀ c, DataConnection.peer (f c) = DataConnection.peer c) →
  keyed hp m → keyed (alter f h hp) m.
Proof.
  intros Hf Hk r h' Hm. destruct (Hk r h' Hm) as (c & Hc & Hp).
  destruct (decide (h = h')) as [->|Hne].
  - exists (f c). rewrite list_lookup_alter_eq, Hc. simpl. by rewrite Hf.
  - exists c. by rewrite list_lookup_alter_ne.
Qed.

Lemma keyed_alloc hp m c : keyed hp m → keyed (hp ++ [c]) m.
Proof.
  intros Hk r h Hm. destruct (Hk r h Hm) as (c' & Hc & Hp).
  exists c'. split; [|done]. by apply lookup_app_l_Some.
Qed.

Lemma keyed_set hp m r h c :
  hp !! h = Some c → DataConnection.peer c = r → keyed hp m → keyed hp (JsMap.set r h m).
Proof.
  intros Hc Hp Hk r' h'. rewrite get_set. case_decide; subst; [|by apply Hk].
  intros [= <-]. eauto.
Qed.

Lemma keyed_delete hp m r : keyed hp m → keyed hp (JsMap.delete r m).
Proof.
  intros Hk r' h'. rewrite get_delete. case_decide; [done|]. by apply Hk.
Qed.
End Keyed.

Lemma conn_lookup s h c : heap s !! h = Some c → conn s h = c.
Proof. unfold conn. by intros ->. Qed.

Lemma keyed_conn_peer s m r h : keyed (heap s) m → JsMap.get r m = Some h → conn_peer s h = r.
Proof.
  intros Hk Hm. destruct (Hk r h Hm) as (c & Hc & Hp).
  unfold conn_peer. by rewrite (conn_lookup s h c).
Qed.

(** ** Every call and every listener keeps the registries well formed *)

Create HintDb calls discriminated.
Create HintDb wf discriminated.

#[local] Hint Unfold mbind M_bind mret M_ret read update emit throw when lift
  upd_connections upd_pendingIncoming upd_pendingOutgoing upd_conn raise
  conn_send conn_close channel_closes on_close on_error peer_connect
  finalizeConnection setupDataListener handleIncomingConnection invite
  on_open_outgoing on : calls.

(** Run a call on a symbolic state, splitting on what it reads. *)
Ltac run_call :=
  autounfold with calls in *;
  repeat (cbn -[JsMap.get JsMap.set JsMap.delete JsMap.has alter lookup bool_decide] in *;
          match goal with
          | |- context [match ?x with _ => _ end] =>
              lazymatch x with
              | context [match _ with _ => _ end] => fail
              | _ => destruct x eqn:?
              end
          end);
  cbn -[JsMap.get JsMap.set JsMap.delete JsMap.has alter lookup bool_decide] in *.

(** Bring the reads of a channel's remote identifier to the heap they read. *)
Ltac peer_reads :=
  unfold conn_peer, conn, set_connections, set_pendingIncoming,
    set_pendingOutgoing, set_callbacks, set_myName, set_peer, set_heap in *;
  cbn [heap connections pendingIncoming pendingOutgoing callbacks myName peer] in *.

#[local] Hint Resolve keyed_nil keyed_alter keyed_alloc keyed_delete
  NoDup_keys_set NoDup_keys_delete : wf.

Ltac wf_fields :=
  match goal with
  | H : wf _ |- _ => destruct H
  end;
  constructor;
  cbn -[JsMap.get JsMap.set JsMap.delete JsMap.has alter lookup] in *;
  eauto 6 with wf.

Lemma wf_on_close s h : wf s → wf (final (on_close h s)).
Proof. intros Hwf. unfold on_close. run_call; wf_fields. Qed.

Lemma wf_on_error s h : wf s → wf (final (on_error h s)).
Proof. intros Hwf. unfold on_error. run_call; wf_fields. Qed.

Lemma wf_on_data s h data :
  is_Some (heap s !! h) → wf s → wf (final (on_data h data s)).
Proof.
  intros [c Hc] Hwf. unfold on_data. run_call; try done.
  all: wf_fields.
  all: eapply keyed_set; eauto; unfold conn_peer; by rewrite (conn_lookup _ _ c).
Qed.

Section Bind.
Context {A B : Type}.
Implicit Types (k : A → M B) (s : PeerService).

Lemma bind_ret (a : A) k s : (mret a ≫= k) s = k a s.
Proof. autounfold with calls. cbn. by destruct (k a s). Qed.

Lemma bind_read (f : PeerService → A) k s : (read f ≫= k) s = k (f s) s.
Proof. autounfold with calls. cbn. by destruct (k (f s) s). Qed.

Lemma bind_throw e k s : (throw e ≫= k) s = Outcome (Throw e) s [].
Proof. done. Qed.
End Bind.

Lemma bind_update {B : Type} (f : PeerService → PeerService) (k : unit → M B) s :
  (update f ≫= k) s = k tt (f s).
Proof. autounfold with calls. cbn. by destruct (k tt (f s)). Qed.

Lemma bind_emit {B : Type} (e : Effect) (k : unit → M B) s :
  (emit e ≫= k) s =
  Outcome (result (k tt s)) (final (k tt s)) (e :: effects (k tt s)).
Proof. autounfold with calls. cbn. by destruct (k tt s). Qed.

(** A call that returns hands its state and its value to the rest. *)
Lemma bind_Return {A B : Type} (m : M A) (k : A → M B) s a :
  result (m s) = Return a →
  (m ≫= k) s
  = Outcome (result (k a (final (m s)))) (final (k a (final (m s))))
      (effects (m s) ++ effects (k a (final (m s)))).
Proof.
  intros Hr. unfold mbind, M_bind. destruct (m s) as [res s1 t1].
  cbn in *. subst. by destruct (k a s1).
Qed.

Lemma conn_close_returns h s : result (conn_close h s) = Return tt.
Proof. by run_call. Qed.

Lemma conn_send_returns h packet s : result (conn_send h packet s) = Return tt.
Proof. by run_call. Qed.

Lemma visit_returns packet k s : result (visit packet k s) = Return tt.
Proof.
  unfold visit. rewrite bind_read. destruct (JsMap.get k (connections s)); [|done].
  rewrite bind_read. unfold when. destruct (DataConnection.open _); [|done].
  apply conn_send_returns.
Qed.

Lemma send_to_open_cons packet k h m s :
  send_to_open packet ((k, h) :: m) s
  = Outcome (result (send_to_open packet m (final (visit packet k s))))
      (final (send_to_open packet m (final (visit packet k s))))
      (effects (visit packet k s)
       ++ effects (send_to_open packet m (final (visit packet k s)))).
Proof.
  exact (bind_Return (visit packet k) (λ _, send_to_open packet m) s tt
           (visit_returns packet k s)).
Qed.

Lemma send_to_open_returns packet m s : result (send_to_open packet m s) = Return tt.
Proof.
  revert s. induction m as [|[k h] m IH]; intros s; [done|].
  rewrite send_to_open_cons. apply IH.
Qed.

(** What every [send] keeps, the loop keeps. *)
Lemma visit_inv (I : PeerService → Prop) packet k s :
  (∀ h s, I s → I (final (conn_send h packet s))) →
  I s → I (final (visit packet k s)).
Proof.
  intros Hsend Hs. unfold visit. rewrite bind_read.
  destruct (JsMap.get k (connections s)) as [h|]; [|done].
  rewrite bind_read. unfold when. destruct (DataConnection.open _); [|done].
  by apply Hsend.
Qed.

Lemma send_to_open_inv (I : PeerService → Prop) packet m s :
  (∀ h s, I s → I (final (conn_send h packet s))) →
  I s → I (final (send_to_open packet m s)).
Proof.
  intros Hsend. revert s. induction m as [|[k h] m IH]; intros s Hs; [done|].
  rewrite send_to_open_cons. cbn [final]. by apply IH, visit_inv.
Qed.

Lemma fan_out_inv (I : PeerService → Prop) packet s :
  (∀ h s, I s → I (final (conn_send h packet s))) →
  I s → I (final (fan_out packet s)).
Proof.
  intros Hsend Hs. unfold fan_out. rewrite bind_read. by apply send_to_open_inv.
Qed.

Lemma fan_out_returns packet s : result (fan_out packet s) = Return tt.
Proof. unfold fan_out. rewrite bind_read. apply send_to_open_returns. Qed.

Lemma wf_conn_send s h packet : wf s → wf (final (conn_send h packet s)).
Proof. intros Hwf. run_call; wf_fields. Qed.

Lemma wf_fan_out s packet : wf s → wf (final (fan_out packet s)).
Proof. apply fan_out_inv. intros h s'. apply wf_conn_send. Qed.

Lemma wf_initialize s userId userName : wf s → wf (final (initialize userId userName s)).
Proof. intros Hwf. unfold initialize. run_call; wf_fields. Qed.

Lemma wf_connectToPeer s peerId : wf s → wf (final (connectToPeer peerId s)).
Proof.
  intros Hwf. unfold connectToPeer. run_call; try done.
  all: wf_fields.
  all: eapply keyed_set; [| |eauto 6 with wf].
  all: rewrite ?list_lookup_alter_eq, ?length_alter, ?list_lookup_middle
         by (by rewrite ?length_alter); reflexivity.
Qed.

Lemma wf_acceptConnection s peerId : wf s → wf (final (acceptConnection peerId s)).
Proof.
  intros Hwf. unfold acceptConnection. run_call; try done.
  all: match goal with
       | H : JsMap.get _ (pendingIncoming ?s0) = Some _ |- _ =>
           pose proof (keyed_conn_peer _ _ _ _ (wf_incoming s0 Hwf) H) as Hpeer;
           destruct (wf_incoming s0 Hwf _ _ H) as (c & Hc & Hp)
       end.
  all: wf_fields.
  all: eapply keyed_set; eauto 6 with wf.
  all: peer_reads; by rewrite ?list_lookup_alter_eq, ?Hc.
Qed.

Lemma wf_rejectConnection s peerId : wf s → wf (final (rejectConnection peerId s)).
Proof. intros Hwf. unfold rejectConnection. run_call; try done; wf_fields. Qed.

Lemma wf_cancelRequest s peerId : wf s → wf (final (cancelRequest peerId s)).
Proof. intros Hwf. unfold cancelRequest. run_call; try done; wf_fields. Qed.

Lemma wf_disconnectPeer s peerId : wf s → wf (final (disconnectPeer peerId s)).
Proof. intros Hwf. unfold disconnectPeer. run_call; try done; wf_fields. Qed.

Lemma listening_allocated s h :
  DataConnection.listening (conn s h) = true → is_Some (heap s !! h).
Proof. unfold conn. destruct (heap s !! h); [eauto | discriminate]. Qed.

Lemma wf_step e s : wf s → wf (final (step e s)).
Proof.
  intros Hwf. destruct e; cbn [step].
  - pose proof (wf_initialize s userId userName Hwf) as H.
    autounfold with calls. by destruct (initialize userId userName s) as [[]].
  - by apply wf_connectToPeer.
  - by apply wf_acceptConnection.
  - by apply wf_rejectConnection.
  - by apply wf_cancelRequest.
  - by apply wf_disconnectPeer.
  - by apply wf_fan_out.
  - by apply wf_fan_out.
  - by apply wf_fan_out.
  - by apply wf_fan_out.
  - unfold broadcastTyping. rewrite bind_read. destruct (peer s); [|done].
    rewrite bind_read. by apply wf_fan_out.
  - run_call; wf_fields.
  - run_call; wf_fields.
  - run_call; wf_fields.
  - rewrite bind_read. unfold when.
    destruct (DataConnection.listening (conn s h)) eqn:Hl; [|done].
    apply listening_allocated in Hl. by apply wf_on_data.
  - run_call; wf_fields.
  - rewrite bind_read. unfold when.
    destruct (DataConnection.listening (conn s h)) eqn:Hl; [|done].
    by apply wf_on_error.
  - run_call; wf_fields.
  - run_call; wf_fields.
  - run_call; wf_fields.
Qed.

Lemma wf_initial : wf initial.
Proof. constructor; simpl; auto using keyed_nil, NoDup_nil_2. Qed.

Lemma wf_run evs s : wf s → wf (run evs s).1.
Proof.
  revert s. induction evs as [|e evs IH]; intros s Hwf; simpl; [done|].
  pose proof (wf_step e s Hwf) as Hstep.
  destruct (step e s) as [res s' tr]. specialize (IH s' Hstep).
  by destruct (run evs s').
Qed.

Lemma reachable_wf s : reachable s → wf s.
Proof. intros [evs <-]. apply wf_run, wf_initial. Qed.

Lemma reachable_after evs : reachable (after evs).
Proof. by exists evs. Qed.

(** ** The channels in the registries have the listeners attached *)

Section Attached.
Implicit Types (hp : list DataConnection.t) (m : list (string * handle)).

Lemma attached_nil hp : attached hp [].
Proof. intros r h. discriminate. Qed.

Lemma attached_alter hp m h f :
  (∀ c, DataConnection.listening c = true → DataConnection.listening (f c) = true) →
  attached hp m → attached (alter f h hp) m.
Proof.
  intros Hf Hk r h' Hm. destruct (Hk r h' Hm) as (c & Hc & Hl).
  destruct (decide (h = h')) as [->|Hne].
  - exists (f c). rewrite list_lookup_alter_eq, Hc. auto.
  - exists c. by rewrite list_lookup_alter_ne.
Qed.

Lemma attached_alloc hp m c : attached hp m → attached (hp ++ [c]) m.
Proof.
  intros Hk r h Hm. destruct (Hk r h Hm) as (c' & Hc & Hl).
  exists c'. split; [|done]. by apply lookup_app_l_Some.
Qed.

Lemma attached_set hp m r h c :
  hp !! h = Some c → DataConnection.listening c = true →
  attached hp m → attached hp (JsMap.set r h m).
Proof.
  intros Hc Hl Hk r' h'. rewrite get_set. case_decide; subst; [|by apply Hk].
  intros [= <-]. eauto.
Qed.

Lemma attached_delete hp m r : attached hp m → attached hp (JsMap.delete r m).
Proof.
  intros Hk r' h'. rewrite get_delete. case_decide; [done|]. by apply Hk.
Qed.
End Attached.

Create HintDb listened discriminated.
#[local] Hint Resolve attached_nil attached_alloc attached_delete : listened.
#[local] Hint Extern 2 (attached (alter _ _ _) _) =>
  apply attached_alter; [by intros [] | ] : listened.

Ltac listened_fields :=
  match goal with
  | H : listened _ |- _ => destruct H
  end;
  constructor;
  cbn -[JsMap.get JsMap.set JsMap.delete JsMap.has alter lookup] in *;
  eauto 6 with listened.

Lemma listened_on_data s h data :
  DataConnection.listening (conn s h) = true →
  listened s → listened (final (on_data h data s)).
Proof.
  intros Hl Hls.
  assert (∃ c, heap s !! h = Some c ∧ DataConnection.listening c = true) as (c & Hc & Hlc).
  { unfold conn in Hl. destruct (heap s !! h) as [c|]; [eauto | discriminate]. }
  unfold on_data. run_call; try done.
  all: listened_fields.
  all: eapply attached_set; eauto.
Qed.

Lemma listened_connectToPeer s peerId : listened s → listened (final (connectToPeer peerId s)).
Proof.
  intros Hls. unfold connectToPeer. run_call; try done.
  all: listened_fields.
  all: eapply attached_set; [| |eauto 6 with listened].
  all: rewrite ?list_lookup_alter_eq, ?length_alter, ?list_lookup_middle
         by (by rewrite ?length_alter); reflexivity.
Qed.

Lemma listened_acceptConnection s peerId :
  listened s → listened (final (acceptConnection peerId s)).
Proof.
  intros Hls. unfold acceptConnection. run_call; try done.
  all: match goal with
       | H : JsMap.get _ (pendingIncoming ?s0) = Some _ |- _ =>
           destruct (listened_incoming s0 Hls _ _ H) as (c & Hc & Hlc)
       end.
  all: listened_fields.
  all: first
    [ by eapply attached_set; eauto
    | eapply (attached_set _ _ _ _ (DataConnection.set_open false c));
      [by rewrite list_lookup_alter_eq, Hc | done | eauto 6 with listened] ].
Qed.

Lemma listened_conn_send s h packet : listened s → listened (final (conn_send h packet s)).
Proof. intros Hls. run_call; listened_fields. Qed.

Lemma listened_fan_out s packet : listened s → listened (final (fan_out packet s)).
Proof. apply fan_out_inv. intros h s'. apply listened_conn_send. Qed.

Lemma listened_step e s : listened s → listened (final (step e s)).
Proof.
  intros Hls. destruct e; cbn [step].
  - unfold initialize. run_call; listened_fields.
  - by apply listened_connectToPeer.
  - by apply listened_acceptConnection.
  - unfold rejectConnection. run_call; try done; listened_fields.
  - unfold cancelRequest. run_call; try done; listened_fields.
  - unfold disconnectPeer. run_call; try done; listened_fields.
  - by apply listened_fan_out.
  - by apply listened_fan_out.
  - by apply listened_fan_out.
  - by apply listened_fan_out.
  - unfold broadcastTyping. rewrite bind_read. destruct (peer s); [|done].
    rewrite bind_read. by apply listened_fan_out.
  - run_call; listened_fields.
  - run_call; listened_fields.
  - run_call; listened_fields.
  - rewrite bind_read. unfold when.
    destruct (DataConnection.listening (conn s h)) eqn:Hl; [|done].
    by apply listened_on_data.
  - run_call; listened_fields.
  - rewrite bind_read. unfold when.
    destruct (DataConnection.listening (conn s h)); [|done].
    unfold on_error. run_call; listened_fields.
  - run_call; listened_fields.
  - run_call; listened_fields.
  - run_call; listened_fields.
Qed.

Lemma listened_run evs s : listened s → listened (run evs s).1.
Proof.
  revert s. induction evs as [|e evs IH]; intros s Hls; simpl; [done|].
  pose proof (listened_step e s Hls) as Hstep.
  destruct (step e s) as [res s' tr]. specialize (IH s' Hstep).
  by destruct (run evs s').
Qed.

Lemma reachable_listened s : reachable s → listened s.
Proof.
  intros [evs <-]. apply listened_run.
  constructor; apply attached_nil.
Qed.

(** ** What the transport does when a channel closes *)

Lemma delete_delete {V : Type} (k : string) (m : list (string * V)) :
  JsMap.delete k (JsMap.delete k m) = JsMap.delete k m.
Proof.
  induction m as [|[k0 v0] m IH]; simpl; [done|].
  case_decide; [done|]. simpl. case_decide; [done|]. by rewrite IH.
Qed.

Lemma on_close_eq s h :
  on_close h s
  = Outcome (Return tt) (cleared (conn_peer s h) s)
      (if onPeerDisconnectedCallback (callbacks s)
       then [Raise (PeerDisconnected (conn_peer s h))] else []).
Proof. unfold on_close, cleared. run_call; by peer_reads. Qed.

Lemma conn_peer_cleared p s h : conn_peer (cleared p s) h = conn_peer s h.
Proof. done. Qed.

Lemma delete_absent {V : Type} (k : string) (m : list (string * V)) :
  JsMap.get k m = None → JsMap.delete k m = m.
Proof.
  induction m as [|[k0 v0] m IH]; simpl; [done|].
  case_decide; [done|]. intros Hm. by rewrite IH.
Qed.

(** A channel in a registry is one the transport handed out, it is filed
    under its remote identifier and it has the listeners. *)
Lemma filed_channel s r h :
  wf s → listened s → filed s r h →
  ∃ c, heap s !! h = Some c
       ∧ DataConnection.listening c = true ∧ DataConnection.peer c = r.
Proof.
  intros Hwf Hls [H|[H|H]].
  - destruct (wf_active s Hwf r h H) as (c & Hc & Hp).
    destruct (listened_active s Hls r h H) as (c' & Hc' & Hl). exists c.
    rewrite Hc in Hc'. by injection Hc' as <-.
  - destruct (wf_incoming s Hwf r h H) as (c & Hc & Hp).
    destruct (listened_incoming s Hls r h H) as (c' & Hc' & Hl). exists c.
    rewrite Hc in Hc'. by injection Hc' as <-.
  - destruct (wf_outgoing s Hwf r h H) as (c & Hc & Hp).
    destruct (listened_outgoing s Hls r h H) as (c' & Hc' & Hl). exists c.
    rewrite Hc in Hc'. by injection Hc' as <-.
Qed.

Lemma conn_shut s h c :
  heap s !! h = Some c → conn (shut h s) h = DataConnection.set_open false c.
Proof. intros Hc. unfold conn, shut. cbn. by rewrite list_lookup_alter_eq, Hc. Qed.

Lemma conn_shut_ne s h h' : h ≠ h' → conn (shut h s) h' = conn s h'.
Proof. intros Hne. unfold conn, shut. cbn. by rewrite list_lookup_alter_ne. Qed.

(** The channel reads as not open before its [close] listener runs. *)
Lemma channel_closes_eq s h c :
  heap s !! h = Some c → DataConnection.listening c = true →
  channel_closes h s
  = Outcome (Return tt) (cleared (DataConnection.peer c) (shut h s))
      (if onPeerDisconnectedCallback (callbacks s)
       then [Raise (PeerDisconnected (DataConnection.peer c))] else []).
Proof.
  intros Hc Hl. unfold channel_closes, upd_conn. rewrite bind_update, bind_read.
  fold (shut h s). rewrite (conn_shut s h c Hc).
  cbn [DataConnection.listening DataConnection.set_open]. rewrite Hl. cbn [when].
  rewrite on_close_eq. unfold conn_peer. by rewrite (conn_shut s h c Hc).
Qed.

(** [close()] on a channel that is open runs the [close] listener before it
    returns; on a channel that is not open it raises nothing. *)
Lemma conn_close_eq s h c :
  heap s !! h = Some c → DataConnection.listening c = true →
  conn_close h s
  = if DataConnection.open c
    then Outcome (Return tt) (cleared (DataConnection.peer c) (shut h s))
           (Close h :: (if onPeerDisconnectedCallback (callbacks s)
                        then [Raise (PeerDisconnected (DataConnection.peer c))]
                        else []))
    else Outcome (Return tt) s [Close h].
Proof.
  intros Hc Hl. unfold conn_close. rewrite bind_read, bind_emit.
  rewrite (conn_lookup s h c Hc). unfold when. destruct (DataConnection.open c); [|done].
  by rewrite (channel_closes_eq s h c Hc Hl).
Qed.

(** A send that fails closes the channel inside [send]. *)
Lemma conn_send_eq s h c packet :
  heap s !! h = Some c → DataConnection.listening c = true →
  conn_send h packet s
  = match DataConnection.sendMode c with
    | Delivers => Outcome (Return tt) s [Send h packet]
    | Fails =>
        Outcome (Return tt) (cleared (DataConnection.peer c) (shut h s))
          (if onPeerDisconnectedCallback (callbacks s)
           then [Raise (PeerDisconnected (DataConnection.peer c))] else [])
    end.
Proof.
  intros Hc Hl. unfold conn_send. rewrite bind_read, (conn_lookup s h c Hc).
  destruct (DataConnection.sendMode c); [done|].
  by apply channel_closes_eq.
Qed.

(** ** Actions on a link that is not there *)

(** C9: for a remote identifier [r] with no link in the registry that an
    action requires, [acceptConnection], [rejectConnection], [cancelRequest]
    and [disconnectPeer] return normally, change nothing in the state and
    have no effect: no packet, no close, no event. *)
Theorem missing_link_noop (a : LinkAction) (s : PeerService) (r : string) :
  JsMap.get r (required a s) = None →
  perform a r s = Outcome (Return tt) s [].
Proof.
  intros Hm. destruct a; simpl in *.
  - unfold acceptConnection. by rewrite bind_read, Hm.
  - unfold rejectConnection. by rewrite bind_read, Hm.
  - unfold cancelRequest. by rewrite bind_read, Hm.
  - unfold disconnectPeer. by rewrite bind_read, Hm.
Qed.

Lemma missing_link_noop_bob :
  JsMap.get "bob" (required Accept (after inviting)) = None
  ∧ perform Accept "bob" (after inviting) = Outcome (Return tt) (after inviting) []
  ∧ perform Disconnect "bob" (after inviting) = Outcome (Return tt) (after inviting) [].
Proof.
  split; [reflexivity|].
  split; apply missing_link_noop; reflexivity.
Defined.

(** ** Initialising twice *)

(** C10: when the service holds a peer that is not destroyed and has the
    identifier [userId], [initialize userId userName] resolves at once with
    [userId], makes no new peer and leaves the peer, the three registries
    and the channels as they are (it stores [userName]); doing it again
    changes nothing more. *)
Theorem initialize_same_id (s : PeerService) (p : Peer.t) (userId userName : string) :
  peer s = Some p → Peer.destroyed p = false → Peer.id p = Some userId →
  let o := initialize userId userName s in
  o = Outcome (Return (Resolved userId)) (set_myName userName s) []
  ∧ peer (final o) = peer s
  ∧ connections (final o) = connections s
  ∧ pendingIncoming (final o) = pendingIncoming s
  ∧ pendingOutgoing (final o) = pendingOutgoing s
  ∧ heap (final o) = heap s
  ∧ initialize userId userName (final o)
    = Outcome (Return (Resolved userId)) (final o) [].
Proof.
  intros Hp Hd Hid.
  assert (∀ s', peer s' = Some p →
            initialize userId userName s'
            = Outcome (Return (Resolved userId)) (set_myName userName s') []) as Hinit.
  { intros s' Hp'. unfold initialize. rewrite bind_update, bind_read. simpl.
    rewrite Hp', Hd, bool_decide_true by done. reflexivity. }
  cbv zeta. rewrite (Hinit s Hp). cbn [final]. repeat split.
  rewrite (Hinit (set_myName userName s)) by done. reflexivity.
Qed.

Lemma initialize_same_id_alice :
  initialize "alice" "Alice" (after inviting)
  = Outcome (Return (Resolved "alice")) (after inviting) [].
Proof.
  apply (initialize_same_id (after inviting) (Peer.mk (Some "alice") false) "alice" "Alice");
    reflexivity.
Defined.

(** ** A channel error *)

(** C7: the [error] listener removes the channel's remote identifier from
    the active and the pending-outgoing registry and does nothing else: the
    pending-incoming registry keeps its entries and no event is raised, even
    for an active link.  The [close] listener on the same channel clears the
    identifier from the pending-incoming registry as well and calls the
    peer-disconnected callback, if one is registered. *)
Theorem on_error_outcome (s : PeerService) (h : handle) :
  on_error h s
  = Outcome (Return tt)
      (set_pendingOutgoing (JsMap.delete (conn_peer s h) (pendingOutgoing s))
         (set_connections (JsMap.delete (conn_peer s h) (connections s)) s))
      []
  ∧ pendingIncoming (final (on_error h s)) = pendingIncoming s
  ∧ raised (effects (on_error h s)) = []
  ∧ pendingIncoming (final (on_close h s))
    = JsMap.delete (conn_peer s h) (pendingIncoming s)
  ∧ raised (effects (on_close h s))
    = (if onPeerDisconnectedCallback (callbacks s)
       then [PeerDisconnected (conn_peer s h)] else []).
Proof.
  repeat split.
  - unfold on_close. run_call; by peer_reads.
  - unfold on_close. run_call; by peer_reads.
Qed.

(** An error on the channel of bob's pending invitation leaves the
    invitation in the registry. *)
Lemma error_keeps_pending_incoming :
  JsMap.get "alice" (pendingIncoming (after invited)) = Some 0
  ∧ JsMap.get "alice" (pendingIncoming (after (invited ++ [ConnError 0]))) = Some 0
  ∧ JsMap.get "alice" (pendingIncoming (after (invited ++ [ConnClose 0]))) = None.
Proof. done. Qed.

(** An error on the channel of an active link raises no event; a close does. *)
Lemma error_on_active_is_silent :
  JsMap.get "bob" (connections (after two_channels)) = Some 0
  ∧ (run [ConnError 0] (after two_channels)).2 = []
  ∧ (run [ConnClose 0] (after two_channels)).2 = [Raise (PeerDisconnected "bob")].
Proof. done. Qed.

(** ** Accepting an invitation *)

(** C2: [acceptConnection r] on a pending-incoming link of [r], whose
    channel delivers what is sent, sends one HANDSHAKE_ACCEPT on that
    channel, removes [r] from the pending-incoming registry, files the
    channel under [r] in the active registry and calls the peer-connected
    callback once, if one is registered.  The name it passes is the
    identifier [r] itself, not the display name of the HANDSHAKE_INIT. *)
Theorem acceptConnection_outcome (s : PeerService) (r : string) (h : handle) :
  reachable s →
  JsMap.get r (pendingIncoming s) = Some h →
  ¬ send_fails s h →
  let o := acceptConnection r s in
  result o = Return tt
  ∧ effects o
    = Send h (handshake_accept (myName s))
      :: (if onPeerConnectedCallback (callbacks s)
          then [Raise (PeerConnected r (VStr r))] else [])
  ∧ JsMap.get r (pendingIncoming (final o)) = None
  ∧ JsMap.get r (connections (final o)) = Some h
  ∧ pendingOutgoing (final o) = pendingOutgoing s.
Proof.
  intros Hwf%reachable_wf Hm Hr.
  pose proof (keyed_conn_peer _ _ _ _ (wf_incoming s Hwf) Hm) as Hp.
  unfold send_fails in Hr. unfold acceptConnection. rewrite bind_read, Hm.
  run_call; try done.
  all: peer_reads; rewrite get_delete_eq, Hp, get_set_eq; done.
Qed.

Lemma acceptConnection_outcome_alice :
  effects (acceptConnection "alice" (after invited))
  = [ Send 0 (handshake_accept "Bob"); Raise (PeerConnected "alice" (VStr "alice")) ].
Proof.
  refine (proj1 (proj2 (acceptConnection_outcome (after invited) "alice" 0 _ _ _))).
  - exists invited. vm_compute. reflexivity.
  - vm_compute. reflexivity.
  - unfold send_fails. vm_compute. discriminate.
Defined.

(** The display name that came with the invitation reached the application
    only in the connection request. *)
Lemma invited_name_is_not_passed_on :
  raised (run invited initial).2 = [ConnectionRequested "alice" (VStr "Alice")]
  ∧ raised (run [AcceptConnection "alice"] (after invited)).2
    = [PeerConnected "alice" (VStr "alice")].
Proof. done. Qed.

(** ** A channel closes *)

(** C5: when the channel of an active link of [r] closes, the [close]
    listener removes [r] from the active registry (and from both pending
    ones) and calls the peer-disconnected callback once, if one is
    registered.  A second close for the same [r] leaves the registries as
    they are and calls the callback again. *)
Theorem on_close_active (s : PeerService) (r : string) (h : handle) :
  reachable s →
  JsMap.get r (connections s) = Some h →
  let o := on_close h s in
  let o2 := on_close h (final o) in
  result o = Return tt
  ∧ JsMap.get r (connections (final o)) = None
  ∧ JsMap.get r (pendingIncoming (final o)) = None
  ∧ JsMap.get r (pendingOutgoing (final o)) = None
  ∧ raised (effects o)
    = (if onPeerDisconnectedCallback (callbacks s) then [PeerDisconnected r] else [])
  ∧ final o2 = final o
  ∧ raised (effects o2) = raised (effects o).
Proof.
  intros Hwf%reachable_wf Hm.
  pose proof (keyed_conn_peer _ _ _ _ (wf_active s Hwf) Hm) as Hp.
  cbv zeta. rewrite (on_close_eq s h). cbn [final result effects].
  rewrite (on_close_eq (cleared (conn_peer s h) s) h), conn_peer_cleared, Hp.
  cbn [final result effects]. unfold cleared. peer_reads.
  rewrite !get_delete_eq, !delete_delete.
  by destruct (onPeerDisconnectedCallback (callbacks s)).
Qed.

Lemma on_close_active_bob :
  raised (effects (on_close 0 (after two_channels))) = [PeerDisconnected "bob"]
  ∧ JsMap.get "bob" (connections (final (on_close 0 (after two_channels)))) = None.
Proof.
  pose proof (on_close_active (after two_channels) "bob" 0) as H.
  destruct H as (_ & Hc & _ & _ & Hr & _).
  - exists two_channels. vm_compute. reflexivity.
  - vm_compute. reflexivity.
  - split; [exact Hr | exact Hc].
Defined.

(** After channel 0 has closed and bob is gone from the registry, the close
    of bob's second channel raises peer-disconnected once more. *)
Lemma second_close_raises_again :
  link_count (after (two_channels ++ [ConnClose 0])) "bob" = 0
  ∧ raised (effects (step (ConnClose 1) (after (two_channels ++ [ConnClose 0]))))
    = [PeerDisconnected "bob"]
  ∧ raised (effects (step (ConnClose 1) (after (two_channels ++ [ConnClose 0])))) ≠ []
  ∧ raised (run (two_channels ++ [ConnClose 0; ConnClose 1]) initial).2
    = [PeerDisconnected "bob"; PeerDisconnected "bob"].
Proof. vm_compute. done. Qed.

(** ** Inviting a peer *)

Lemma entries_set r h (m : list (string * handle)) :
  NoDup (JsMap.keys m) → entries r (JsMap.set r h m) = [(r, h)].
Proof.
  intros Hnd. apply entries_get_Some; [by apply NoDup_keys_set | apply get_set_eq].
Qed.

(** The state that [invite] leaves. *)
Lemma invite_facts s r :
  let o := invite r s in
  let h := length (heap s) in
  o = Outcome (Return tt) (final o) [Connect h r (myName s)]
  ∧ heap (final o) !! h
    = Some (DataConnection.mk r false (Some SendHandshake) true Delivers)
  ∧ (∀ h', h' < h → heap (final o) !! h' = heap s !! h')
  ∧ pendingOutgoing (final o) = JsMap.set r h (pendingOutgoing s)
  ∧ connections (final o) = connections s
  ∧ pendingIncoming (final o) = pendingIncoming s
  ∧ myName (final o) = myName s
  ∧ callbacks (final o) = callbacks s.
Proof.
  cbv zeta. autounfold with calls. cbn.
  rewrite !list_lookup_alter_eq, list_lookup_middle by done.
  repeat split. intros h' Hlt.
  by rewrite !list_lookup_alter_ne, lookup_app_l by lia.
Qed.

(** C6: on a service that has a peer, [connectToPeer r] does nothing when
    an active link of [r] exists; otherwise it asks the transport for a new
    channel [h] to [r] and files it as the one pending-outgoing link of [r],
    after closing the channel of a pending-outgoing link that was there.
    The active registry stays as it is.  Closing a channel that was open
    runs its [close] listener inside the call: peer-disconnected is raised
    for [r] and [r] leaves the pending-incoming registry; otherwise that
    registry stays as it is as well and no event is raised. *)
Theorem connectToPeer_cases (s : PeerService) (p : Peer.t) (r : string) :
  reachable s →
  peer s = Some p →
  let o := connectToPeer r s in
  let h := length (heap s) in
  result o = Return tt
  ∧ connections (final o) = connections s
  ∧ match JsMap.get r (connections s), JsMap.get r (pendingOutgoing s) with
    | Some _, _ => o = Outcome (Return tt) s []
    | None, Some old =>
        old ≠ h
        ∧ DataConnection.open (conn (final o) old) = false
        ∧ entries r (pendingOutgoing (final o)) = [(r, h)]
        ∧ conn_peer (final o) h = r
        ∧ if DataConnection.open (conn s old)
          then effects o
               = Close old
                 :: (if onPeerDisconnectedCallback (callbacks s)
                     then [Raise (PeerDisconnected r)] else [])
                 ++ [Connect h r (myName s)]
               ∧ pendingIncoming (final o) = JsMap.delete r (pendingIncoming s)
          else effects o = [Close old; Connect h r (myName s)]
               ∧ pendingIncoming (final o) = pendingIncoming s
    | None, None =>
        effects o = [Connect h r (myName s)]
        ∧ pendingIncoming (final o) = pendingIncoming s
        ∧ entries r (pendingOutgoing (final o)) = [(r, h)]
        ∧ conn_peer (final o) h = r
    end.
Proof.
  intros Hreach Hp.
  pose proof (reachable_wf s Hreach) as Hwf.
  pose proof (reachable_listened s Hreach) as Hls.
  pose proof (wf_outgoing_keys s Hwf) as Hnd.
  unfold connectToPeer, JsMap.has. rewrite bind_read, Hp, bind_read.
  destruct (JsMap.get r (connections s)) as [a|] eqn:Ha; [done|].
  rewrite bind_read.
  destruct (JsMap.get r (pendingOutgoing s)) as [old|] eqn:Ho.
  - destruct (filed_channel s r old Hwf Hls) as (c & Hc & Hl & Hpc);
      [by right; right|].
    pose proof (lookup_lt_Some _ _ _ Hc) as Hlt.
    rewrite (bind_Return _ _ _ tt (conn_close_returns old s)).
    rewrite (conn_close_eq s old c Hc Hl), (conn_lookup s old c Hc), Hpc.
    destruct (DataConnection.open c) eqn:Hopen; cbn [final effects result].
    + destruct (invite_facts (cleared r (shut old s)) r)
        as (Heq & Hh & Hlow & Hout & Hact & Hinc & _).
      assert (length (heap (cleared r (shut old s))) = length (heap s)) as Hlen
        by (unfold cleared, shut; cbn; by rewrite length_alter).
      rewrite Hlen in *. rewrite Heq. cbn [result final effects].
      unfold conn_peer, conn. rewrite Hact, Hinc, Hout, Hh, (Hlow old Hlt).
      unfold cleared, shut. cbn.
      rewrite list_lookup_alter_eq, Hc, delete_absent by done.
      rewrite entries_set by (by apply NoDup_keys_delete).
      repeat split; try done; lia.
    + destruct (invite_facts s r) as (Heq & Hh & Hlow & Hout & Hact & Hinc & _).
      rewrite Heq. cbn [result final effects].
      unfold conn_peer, conn. rewrite Hact, Hinc, Hout, Hh, (Hlow old Hlt), Hc.
      rewrite entries_set by done.
      repeat split; try done; lia.
  - rewrite bind_ret.
    destruct (invite_facts s r) as (Heq & Hh & Hlow & Hout & Hact & Hinc & _).
    rewrite Heq. cbn [result final effects].
    unfold conn_peer, conn. rewrite Hact, Hinc, Hout, Hh.
    by rewrite entries_set by done.
Qed.

Lemma connectToPeer_cases_retry :
  effects (connectToPeer "bob" (after awaiting))
  = [Close 0; Raise (PeerDisconnected "bob"); Connect 1 "bob" "Alice"]
  ∧ entries "bob" (pendingOutgoing (final (connectToPeer "bob" (after awaiting))))
    = [("bob", 1)].
Proof.
  assert (peer (after awaiting) = Some (Peer.mk (Some "alice") false)) as Hp
    by (vm_compute; reflexivity).
  pose proof (connectToPeer_cases (after awaiting) _ "bob"
                (reachable_after awaiting) Hp) as H.
  vm_compute in H. destruct H as (_ & _ & _ & _ & Hn & _ & He & _).
  split; vm_compute; [exact He | exact Hn].
Defined.

(** A service that was never initialised has no peer: [connectToPeer]
    returns at once and records nothing. *)
Lemma connect_before_initialize :
  link_count initial "bob" = 0
  ∧ connectToPeer "bob" initial = Outcome (Return tt) initial []
  ∧ entries "bob" (pendingOutgoing (final (connectToPeer "bob" initial))) = []
  ∧ length (entries "bob" (pendingOutgoing (final (connectToPeer "bob" initial)))) ≠ 1.
Proof. vm_compute. done. Qed.

(** ** A pending link loses its channel *)


Lemma cleared_link_count p s : link_count (cleared p s) p = 0.
Proof.
  unfold link_count, cleared. peer_reads.
  by rewrite !entries_get_None by apply get_delete_eq.
Qed.

Lemma rejectConnection_eq s r h c :
  JsMap.get r (pendingIncoming s) = Some h →
  heap s !! h = Some c → DataConnection.listening c = true →
  DataConnection.peer c = r →
  rejectConnection r s
  = if DataConnection.open c
    then Outcome (Return tt) (cleared r (shut h s))
           (Close h :: (if onPeerDisconnectedCallback (callbacks s)
                        then [Raise (PeerDisconnected r)] else []))
    else Outcome (Return tt)
           (set_pendingIncoming (JsMap.delete r (pendingIncoming s)) s) [Close h].
Proof.
  intros Hm Hc Hl Hp. unfold rejectConnection. rewrite bind_read, Hm.
  rewrite (bind_Return _ _ _ tt (conn_close_returns h s)).
  rewrite (conn_close_eq s h c Hc Hl), Hp.
  destruct (DataConnection.open c); cbn; [|done].
  unfold cleared, shut. peer_reads. rewrite delete_delete.
  by destruct (onPeerDisconnectedCallback (callbacks s)).
Qed.

Lemma cancelRequest_eq s r h c :
  JsMap.get r (pendingOutgoing s) = Some h →
  heap s !! h = Some c → DataConnection.listening c = true →
  DataConnection.peer c = r →
  cancelRequest r s
  = if DataConnection.open c
    then Outcome (Return tt) (cleared r (shut h s))
           (Close h :: (if onPeerDisconnectedCallback (callbacks s)
                        then [Raise (PeerDisconnected r)] else []))
    else Outcome (Return tt)
           (set_pendingOutgoing (JsMap.delete r (pendingOutgoing s)) s) [Close h].
Proof.
  intros Hm Hc Hl Hp. unfold cancelRequest. rewrite bind_read, Hm.
  rewrite (bind_Return _ _ _ tt (conn_close_returns h s)).
  rewrite (conn_close_eq s h c Hc Hl), Hp.
  destruct (DataConnection.open c); cbn; [|done].
  unfold cleared, shut. peer_reads. rewrite delete_delete.
  by destruct (onPeerDisconnectedCallback (callbacks s)).
Qed.

Lemma disconnectPeer_eq s r h c :
  JsMap.get r (connections s) = Some h →
  heap s !! h = Some c → DataConnection.listening c = true →
  DataConnection.peer c = r →
  disconnectPeer r s
  = if DataConnection.open c
    then Outcome (Return tt) (cleared r (shut h s))
           (Close h :: (if onPeerDisconnectedCallback (callbacks s)
                        then [Raise (PeerDisconnected r); Raise (PeerDisconnected r)]
                        else []))
    else Outcome (Return tt)
           (set_connections (JsMap.delete r (connections s)) s)
           (Close h :: (if onPeerDisconnectedCallback (callbacks s)
                        then [Raise (PeerDisconnected r)] else [])).
Proof.
  intros Hm Hc Hl Hp. unfold disconnectPeer. rewrite bind_read, Hm.
  rewrite (bind_Return _ _ _ tt (conn_close_returns h s)).
  rewrite (conn_close_eq s h c Hc Hl), Hp.
  destruct (DataConnection.open c); cbn.
  - unfold cleared, shut. run_call; peer_reads; by rewrite delete_delete.
  - by run_call.
Qed.









(** The same for an invitation that has come in: bob holds alice's
    invitation on the open channel 0 when the channel closes. *)
Lemma pending_incoming_close_raises_event :
  JsMap.get "alice" (pendingIncoming (after (On PeerDisconnectedSlot :: invited))) = Some 0
  ∧ JsMap.get "alice" (connections (after (On PeerDisconnectedSlot :: invited))) = None
  ∧ raised (effects (step (ConnClose 0) (after (On PeerDisconnectedSlot :: invited))))
    = [PeerDisconnected "alice"].
Proof. vm_compute. done. Qed.

(** Inviting bob again while the first invitation is out on an open channel,
    and cancelling at once, is not silent either. *)
Lemma retry_then_cancel_raises_event :
  raised (effects ((connectToPeer "bob";; cancelRequest "bob") (after awaiting)))
  = [PeerDisconnected "bob"].
Proof. vm_compute. done. Qed.

(** ** Messages that are dropped *)

Lemma js_is_str_false t k : t ≠ VStr k → js_is_str t k = false.
Proof.
  destruct t; simpl; try done. intros Hne.
  apply String.eqb_neq. congruence.
Qed.

(** C8: a raw message whose [type] is none of the seven kinds, and a
    CHANNEL_SYNC message whose payload is not an array, is dropped: the
    [data] listener returns normally with the state as it was and with no
    effect, so the events after it are handled as if it had not arrived. *)
Theorem dropped_message (s : PeerService) (h : handle) (data : JsVal) :
  unknown_kind data ∨ bad_channel_sync data →
  on_data h data s = Outcome (Return tt) s []
  ∧ ∀ evs, run (ConnData h data :: evs) s = run evs s.
Proof.
  intros Hd.
  assert (on_data h data s = Outcome (Return tt) s []) as Hdrop.
  { unfold on_data. destruct Hd as [(t & Ht & Hk)|(p & Ht & Hp & Ha)].
    - rewrite Ht. cbn [lift]. rewrite bind_ret.
      rewrite !js_is_str_false; [done|..]; apply Hk; unfold kinds;
        repeat first [apply list_elem_of_here | apply list_elem_of_further].
    - rewrite Ht, Hp. autounfold with calls. cbn.
      destruct (onChannelSyncCallback (callbacks s)); [|done].
      by rewrite Ha. }
  split; [done|].
  intros evs. cbn [run step]. rewrite bind_read. unfold when.
  destruct (DataConnection.listening (conn s h)); [rewrite Hdrop|];
    simpl; by destruct (run evs s).
Qed.

Lemma dropped_message_ping :
  on_data 0 (P2PMessage "PING" VNull) (after invited)
  = Outcome (Return tt) (after invited) [].
Proof.
  refine (proj1 (dropped_message (after invited) 0 (P2PMessage "PING" VNull) _)).
  left. exists (VStr "PING"). split; [reflexivity|].
  intros k Hk. unfold kinds in Hk.
  repeat (apply elem_of_cons in Hk as [->|Hk]; [discriminate|]).
  by apply elem_of_nil in Hk.
Defined.

(** A HANDSHAKE_INIT without a payload makes the listener throw; one whose
    payload has no name is filed as an invitation all the same. *)
Lemma malformed_handshake_not_dropped :
  result (step (ConnData 0 (VObj [("type", VStr "HANDSHAKE_INIT")])) (after invited))
  = Throw TypeError
  ∧ result (step (ConnData 0 (VObj [("type", VStr "HANDSHAKE_INIT")])) (after invited))
    ≠ Return tt
  ∧ JsMap.get "bob" (pendingIncoming (after inviting)) = None
  ∧ JsMap.get "bob"
      (pendingIncoming
         (final (step (ConnData 0 (P2PMessage "HANDSHAKE_INIT" (VObj []))) (after inviting))))
    = Some 0.
Proof. vm_compute. done. Qed.

(** ** Broadcast *)

Lemma filter_agree {A : Type} (P Q : A → Prop) `{!∀ x, Decision (P x)}
    `{!∀ x, Decision (Q x)} (l : list A) :
  Forall (λ x, P x ↔ Q x) l → filter P l = filter Q l.
Proof.
  induction 1 as [|x l Hx Hl IH]; [done|].
  destruct (decide (P x)) as [HP|HP].
  - rewrite !filter_cons_True by tauto. by rewrite IH.
  - rewrite !filter_cons_False by tauto. done.
Qed.

Lemma conn_peer_shut s h h' : conn_peer (shut h s) h' = conn_peer s h'.
Proof.
  unfold conn_peer. destruct (decide (h = h')) as [->|Hne].
  - unfold conn, shut. cbn. rewrite list_lookup_alter_eq.
    by destruct (heap s !! h').
  - by rewrite conn_shut_ne.
Qed.

Lemma conn_peer_drop_link s h h' : conn_peer (drop_link s h) h' = conn_peer s h'.
Proof. apply conn_peer_shut. Qed.

Lemma conn_drop_link_ne s h h' : h ≠ h' → conn (drop_link s h) h' = conn s h'.
Proof. apply conn_shut_ne. Qed.

Lemma visit_eq s k h c packet :
  JsMap.get k (connections s) = Some h →
  heap s !! h = Some c → DataConnection.listening c = true →
  visit packet k s
  = if DataConnection.open c
    then match DataConnection.sendMode c with
         | Delivers => Outcome (Return tt) s [Send h packet]
         | Fails =>
             Outcome (Return tt) (cleared (DataConnection.peer c) (shut h s))
               (if onPeerDisconnectedCallback (callbacks s)
                then [Raise (PeerDisconnected (DataConnection.peer c))] else [])
         end
    else Outcome (Return tt) s [].
Proof.
  intros Hk Hc Hl. unfold visit.
  rewrite bind_read, Hk, bind_read, (conn_lookup s h c Hc).
  destruct (DataConnection.open c); [|done]. by apply conn_send_eq.
Qed.

Lemma send_effects_agree s s' packet h :
  conn s' h = conn s h → callbacks s' = callbacks s →
  send_effects s' packet h = send_effects s packet h.
Proof.
  intros Hc Hcb. unfold send_effects, conn_peer. rewrite Hc, Hcb.
  destruct (decide (send_fails s' h)) as [H'|H'], (decide (send_fails s h)) as [H|H];
    unfold send_fails in *; rewrite ?Hc in *; done.
Qed.

Lemma raised_fan_out s packet (hs : list handle) :
  raised (hs ≫= send_effects s packet)
  = (if onPeerDisconnectedCallback (callbacks s)
     then PeerDisconnected <$> (conn_peer s <$> filter (send_fails s) hs) else []).
Proof.
  unfold raised. induction hs as [|h hs IH].
  { by destruct (onPeerDisconnectedCallback (callbacks s)). }
  cbn [mbind list_bind]. rewrite omap_app, IH. unfold send_effects at 1.
  destruct (decide (send_fails s h)) as [Hf|Hf].
  - rewrite filter_cons_True by done.
    by destruct (onPeerDisconnectedCallback (callbacks s)).
  - rewrite filter_cons_False by done. done.
Qed.

(** The loop, entry by entry: the entries still to visit are in the active
    registry, under keys that differ. *)
Lemma send_to_open_eq packet (m : list (string * handle)) s :
  wf s → listened s →
  NoDup (JsMap.keys m) →
  Forall (λ kh, JsMap.get kh.1 (connections s) = Some kh.2) m →
  let hs := filter (λ h, DataConnection.open (conn s h) = true) (JsMap.values m) in
  send_to_open packet m s
  = Outcome (Return tt) (foldl drop_link s (filter (send_fails s) hs))
      (hs ≫= send_effects s packet).
Proof.
  unfold JsMap.keys, JsMap.values. revert s.
  induction m as [|[k h] m IH]; intros s Hwf Hls Hnd Hin; cbn zeta; [done|].
  apply NoDup_cons in Hnd as [Hk Hnd]. apply Forall_cons in Hin as [Hkh Hin].
  cbn [fst snd] in Hkh.
  destruct (filed_channel s k h Hwf Hls) as (c & Hc & Hl & Hp); [by left|].
  (* the channels of the entries to come are other channels *)
  assert (Forall (λ h', h ≠ h') m.*2) as Hother.
  { apply Forall_fmap, Forall_forall. intros [k' h'] Hel Heq. cbn in Heq. subst h'.
    rewrite Forall_forall in Hin. specialize (Hin _ Hel). cbn in Hin.
    pose proof (keyed_conn_peer _ _ _ _ (wf_active s Hwf) Hin) as Hk'.
    pose proof (keyed_conn_peer _ _ _ _ (wf_active s Hwf) Hkh) as Hk0.
    apply Hk. apply list_elem_of_fmap. exists (k', h). split; [|done]. cbn. congruence. }
  rewrite send_to_open_cons. cbn [fmap list_fmap snd].
  rewrite (visit_eq s k h c packet Hkh Hc Hl).
  destruct (DataConnection.open c) eqn:Hopen.
  2:{ rewrite filter_cons_False by (rewrite (conn_lookup s h c Hc), Hopen; done).
      cbn [final effects app]. by rewrite (IH s Hwf Hls Hnd Hin). }
  rewrite filter_cons_True by (by rewrite (conn_lookup s h c Hc)).
  cbn [mbind list_bind]. unfold send_effects at 1.
  destruct (DataConnection.sendMode c) eqn:Hmode; cbn [final effects].
  - (* the packet is handed over *)
    rewrite filter_cons_False
      by (unfold send_fails; rewrite (conn_lookup s h c Hc), Hmode; done).
    rewrite decide_False
      by (unfold send_fails; rewrite (conn_lookup s h c Hc), Hmode; done).
    by rewrite (IH s Hwf Hls Hnd Hin).
  - (* the send fails: the link is dropped inside the loop *)
    rewrite filter_cons_True
      by (unfold send_fails; by rewrite (conn_lookup s h c Hc), Hmode).
    rewrite decide_True
      by (unfold send_fails; by rewrite (conn_lookup s h c Hc), Hmode).
    assert (conn_peer s h = k) as Hpk by (unfold conn_peer; by rewrite (conn_lookup s h c Hc)).
    rewrite Hp. cbn [foldl]. unfold drop_link at 2. rewrite Hpk.
    set (s' := cleared k (shut h s)).
    assert (s' = final (conn_send h packet s)) as Hs'
      by (by rewrite (conn_send_eq s h c packet Hc Hl), Hmode, Hp).
    assert (wf s') as Hwf' by (rewrite Hs'; by apply wf_conn_send).
    assert (listened s') as Hls' by (rewrite Hs'; by apply listened_conn_send).
    assert (Forall (λ kh, JsMap.get kh.1 (connections s') = Some kh.2) m) as Hin'.
    { apply Forall_forall. intros [k' h'] Hel. cbn.
      rewrite Forall_forall in Hin. specialize (Hin _ Hel). cbn in Hin.
      rewrite get_delete, decide_False; [done|].
      intros ->. apply Hk. apply list_elem_of_fmap. by exists (k', h'). }
    rewrite (IH s' Hwf' Hls' Hnd Hin').
    assert (filter (λ h', DataConnection.open (conn s' h') = true) m.*2
            = filter (λ h', DataConnection.open (conn s h') = true) m.*2) as ->.
    { apply filter_agree. eapply Forall_impl; [exact Hother|].
      intros h' Hne. cbn.
      change (conn s' h') with (conn (shut h s) h').
      by rewrite (conn_shut_ne s h h' Hne). }
    set (hs := filter (λ h', DataConnection.open (conn s h') = true) m.*2).
    assert (Forall (λ h', h ≠ h') hs) as Hhs.
    { apply Forall_forall. intros h' [_ Hel]%list_elem_of_filter.
      rewrite Forall_forall in Hother. by apply Hother. }
    assert (filter (send_fails s') hs = filter (send_fails s) hs) as ->.
    { apply filter_agree. eapply Forall_impl; [exact Hhs|].
      intros h' Hne. unfold send_fails.
      change (conn s' h') with (conn (shut h s) h').
      by rewrite (conn_shut_ne s h h' Hne). }
    cbn [result final effects]. f_equal. f_equal.
    clear -Hhs. induction hs as [|h' hs IH]; [done|].
    apply Forall_cons in Hhs as [Hne Hhs]. cbn [mbind list_bind]. rewrite (IH Hhs).
    f_equal. apply send_effects_agree; [|done].
    change (conn s' h') with (conn (shut h s) h'). by apply conn_shut_ne.
Qed.

Lemma Forall_get_self (m : list (string * handle)) :
  NoDup (JsMap.keys m) → Forall (λ kh, JsMap.get kh.1 m = Some kh.2) m.
Proof.
  unfold JsMap.keys. induction m as [|[k h] m IH]; intros Hnd; [done|].
  apply NoDup_cons in Hnd as [Hk Hnd]. constructor.
  - cbn. by rewrite decide_True.
  - specialize (IH Hnd). rewrite Forall_forall in IH. apply Forall_forall.
    intros [k' h'] Hel. cbn. rewrite decide_False; [by apply (IH (k', h'))|].
    intros ->. apply Hk. apply list_elem_of_fmap. by exists (k, h').
Qed.

(** A fan-out call returns; it has handed the packet to the open active
    links, in the order of the registry, and each link whose send failed has
    been closed and dropped on the way. *)
Lemma fan_out_eq packet s :
  wf s → listened s →
  fan_out packet s
  = Outcome (Return tt) (after_sends s) (open_links s ≫= send_effects s packet).
Proof.
  intros Hwf Hls. unfold fan_out. rewrite bind_read.
  apply (send_to_open_eq packet (connections s) s Hwf Hls (wf_active_keys s Hwf)).
  apply Forall_get_self, (wf_active_keys s Hwf).
Qed.

Lemma NoDup_values_of_keys {A B : Type} (m : list (A * B)) :
  NoDup m.*1 →
  (∀ k k' v, (k, v) ∈ m → (k', v) ∈ m → k = k') →
  NoDup m.*2.
Proof.
  induction m as [|[k v] m IH]; intros Hnd Hfun; [constructor|].
  apply NoDup_cons in Hnd as [Hk Hnd]. cbn [fmap list_fmap snd].
  apply NoDup_cons. split.
  - intros ([k' v'] & Heq & Hel)%list_elem_of_fmap. cbn in Heq. subst v'.
    apply Hk. apply list_elem_of_fmap. exists (k', v). split; [|done]. cbn.
    apply (Hfun k k' v); [apply list_elem_of_here | by apply list_elem_of_further].
  - apply IH; [done|]. intros k1 k2 v' H1 H2.
    apply (Hfun k1 k2 v'); by apply list_elem_of_further.
Qed.

(** The channels of the active registry differ from one another. *)
Lemma NoDup_active_values s : wf s → NoDup (JsMap.values (connections s)).
Proof.
  intros Hwf. pose proof (wf_active_keys s Hwf) as Hnd.
  pose proof (Forall_get_self _ Hnd) as Hself. rewrite Forall_forall in Hself.
  apply NoDup_values_of_keys; [done|].
  intros k k' h H1%Hself H2%Hself. cbn in H1, H2.
  pose proof (keyed_conn_peer _ _ _ _ (wf_active s Hwf) H1).
  pose proof (keyed_conn_peer _ _ _ _ (wf_active s Hwf) H2). congruence.
Qed.

Lemma NoDup_open_links s : wf s → NoDup (open_links s).
Proof. intros Hwf. by apply NoDup_filter, NoDup_active_values. Qed.

(** What has been handed to a channel [h] by the loop. *)
Lemma sent_on_fan_out s packet h (hs : list handle) :
  NoDup hs →
  sent_on h (hs ≫= send_effects s packet)
  = if decide (h ∈ hs ∧ ¬ send_fails s h) then [packet] else [].
Proof.
  unfold sent_on. induction hs as [|h' hs IH]; intros Hnd.
  { cbn. rewrite decide_False; [done|]. by intros [?%elem_of_nil _]. }
  apply NoDup_cons in Hnd as [Hh' Hnd]. cbn [mbind list_bind].
  rewrite omap_app, (IH Hnd).
  assert (omap (λ e, match e with
                     | Send h'0 p => if decide (h'0 = h) then Some p else None
                     | _ => None
                     end) (send_effects s packet h')
          = if decide (h' = h ∧ ¬ send_fails s h') then [packet] else []) as ->.
  { unfold send_effects. destruct (decide (send_fails s h')) as [Hf|Hf].
    - rewrite decide_False by tauto.
      by destruct (onPeerDisconnectedCallback (callbacks s)).
    - cbn. destruct (decide (h' = h)) as [Heq|Hne].
      + by rewrite decide_True.
      + by rewrite decide_False by tauto. }
  destruct (decide (h' = h ∧ ¬ send_fails s h')) as [[-> Hok]|H1],
    (decide (h ∈ hs ∧ ¬ send_fails s h)) as [[Hel Hok']|H2]; cbn [app].
  - done.
  - rewrite decide_True; [done|]. split; [apply list_elem_of_here|done].
  - rewrite decide_True; [done|]. split; [by apply list_elem_of_further|done].
  - rewrite decide_False; [done|]. intros [[->|Hel]%elem_of_cons Hok]; tauto.
Qed.

(** The registries once the links in [hs] have been dropped. *)
Lemma dropped_registries s (hs : list handle) r :
  let s' := foldl drop_link s hs in
  if decide (r ∈ conn_peer s <$> hs)
  then JsMap.get r (connections s') = None
       ∧ JsMap.get r (pendingIncoming s') = None
       ∧ JsMap.get r (pendingOutgoing s') = None
  else JsMap.get r (connections s') = JsMap.get r (connections s)
       ∧ JsMap.get r (pendingIncoming s') = JsMap.get r (pendingIncoming s)
       ∧ JsMap.get r (pendingOutgoing s') = JsMap.get r (pendingOutgoing s).
Proof.
  cbv zeta. revert s. induction hs as [|h hs IH]; intros s; cbn [foldl fmap list_fmap].
  { rewrite decide_False; [done|]. by intros ?%elem_of_nil. }
  specialize (IH (drop_link s h)).
  assert (conn_peer (drop_link s h) <$> hs = conn_peer s <$> hs) as Heq
    by (apply list_fmap_ext; intros; apply conn_peer_drop_link).
  rewrite Heq in IH.
  assert (∀ r', JsMap.get r' (connections (drop_link s h))
                = (if decide (conn_peer s h = r') then None else JsMap.get r' (connections s))
              ∧ JsMap.get r' (pendingIncoming (drop_link s h))
                = (if decide (conn_peer s h = r') then None
                   else JsMap.get r' (pendingIncoming s))
              ∧ JsMap.get r' (pendingOutgoing (drop_link s h))
                = (if decide (conn_peer s h = r') then None
                   else JsMap.get r' (pendingOutgoing s))) as Hdrop.
  { intros r'. unfold drop_link, cleared, shut. cbn.
    change (conn_peer _ h) with (conn_peer s h). by rewrite !get_delete. }
  destruct (Hdrop r) as (Hc & Hi & Ho).
  destruct (decide (r ∈ conn_peer s <$> hs)) as [Hel|Hnel].
  - rewrite decide_True by (by apply list_elem_of_further). done.
  - destruct IH as (IHc & IHi & IHo). rewrite IHc, IHi, IHo, Hc, Hi, Ho.
    destruct (decide (conn_peer s h = r)) as [<-|Hne].
    + rewrite decide_True by apply list_elem_of_here. done.
    + rewrite decide_False; [done|]. intros [->|?]%elem_of_cons; tauto.
Qed.

(** The channels once the links in [hs] have been dropped. *)
Lemma dropped_channels s (hs : list handle) h :
  let s' := foldl drop_link s hs in
  (h ∉ hs → conn s' h = conn s h)
  ∧ (h ∈ hs → DataConnection.open (conn s' h) = false).
Proof.
  cbv zeta.
  assert (∀ s0 h', DataConnection.open (conn (drop_link s0 h') h)
                   = if decide (h' = h) then false
                     else DataConnection.open (conn s0 h)) as Hone.
  { intros s0 h'. case_decide as Heq; [subst h'|by rewrite conn_drop_link_ne].
    unfold conn, drop_link, cleared, shut. cbn. rewrite list_lookup_alter_eq.
    by destruct (heap s0 !! h). }
  assert (∀ hs0 s0, DataConnection.open (conn s0 h) = false →
            DataConnection.open (conn (foldl drop_link s0 hs0) h) = false) as Hstays.
  { induction hs0 as [|h' hs0 IH]; intros s0 Hs0; cbn [foldl]; [done|].
    apply IH. rewrite Hone. by case_decide. }
  revert s. induction hs as [|h' hs IH]; intros s; cbn [foldl].
  { split; [done|]. by intros ?%elem_of_nil. }
  destruct (IH (drop_link s h')) as [IHn IHy]. split.
  - intros [Hne Hnel]%not_elem_of_cons. rewrite (IHn Hnel).
    by apply conn_drop_link_ne.
  - intros [->|Hel]%elem_of_cons; [|by apply IHy].
    apply Hstays. rewrite Hone. by rewrite decide_True.
Qed.

(** C4: [broadcast m] returns normally and calls [send] with the
    CHAT_MESSAGE packet on the active links whose channel reports open, once
    each and in the order of the active registry, and on no other channel.
    A send that fails does not stop the loop: every open active link whose
    send does not fail is handed the packet.  The link whose send failed
    has been closed by the transport inside the call: its remote identifier
    has left the registries and the peer-disconnected callback, if one is
    registered, has been called for it; the other links are as they were. *)
Theorem broadcast_outcome (s : PeerService) (message : JsVal) :
  reachable s →
  let packet := P2PMessage "CHAT_MESSAGE" message in
  let o := broadcast message s in
  result o = Return tt
  ∧ effects o = open_links s ≫= send_effects s packet
  ∧ (∀ h, sent_on h (effects o)
          = if decide (h ∈ open_links s ∧ ¬ send_fails s h) then [packet] else [])
  ∧ raised (effects o)
    = (if onPeerDisconnectedCallback (callbacks s)
       then PeerDisconnected <$> failing_peers s else [])
  ∧ final o = after_sends s
  ∧ (∀ r, r ∈ failing_peers s → link_count (final o) r = 0)
  ∧ (∀ r, r ∉ failing_peers s →
          JsMap.get r (connections (final o)) = JsMap.get r (connections s)
          ∧ JsMap.get r (pendingIncoming (final o)) = JsMap.get r (pendingIncoming s)
          ∧ JsMap.get r (pendingOutgoing (final o)) = JsMap.get r (pendingOutgoing s)).
Proof.
  intros Hreach. pose proof (reachable_wf s Hreach) as Hwf.
  pose proof (reachable_listened s Hreach) as Hls.
  cbv zeta. unfold broadcast. rewrite (fan_out_eq _ s Hwf Hls).
  cbn [result final effects]. split; [done|]. split; [done|]. split; [|split; [|split; [done|split]]].
  - intros h. apply sent_on_fan_out, NoDup_open_links, Hwf.
  - apply raised_fan_out.
  - intros r Hr. pose proof (dropped_registries s (failing_links s) r) as H.
    cbv zeta in H. fold (failing_peers s) in H. rewrite decide_True in H by done.
    destruct H as (Hc & Hi & Ho). unfold link_count, after_sends.
    by rewrite !entries_get_None.
  - intros r Hr. pose proof (dropped_registries s (failing_links s) r) as H.
    cbv zeta in H. fold (failing_peers s) in H. by rewrite decide_False in H.
Qed.

Lemma broadcast_outcome_broken_link :
  effects (broadcast (VStr "hi") (after broken_link))
  = [ Raise (PeerDisconnected "bob"); Send 1 (P2PMessage "CHAT_MESSAGE" (VStr "hi")) ]
  ∧ sent_on 1 (effects (broadcast (VStr "hi") (after broken_link)))
    = [ P2PMessage "CHAT_MESSAGE" (VStr "hi") ]
  ∧ link_count (final (broadcast (VStr "hi") (after broken_link))) "bob" = 0.
Proof.
  pose proof (broadcast_outcome (after broken_link) (VStr "hi")
                (reachable_after broken_link)) as H.
  cbv zeta in H. destruct H as (_ & He & Hs & _ & _ & Hgone & _).
  split; [|split].
  - rewrite He. vm_compute. reflexivity.
  - rewrite (Hs 1). vm_compute. reflexivity.
  - apply Hgone. vm_compute. apply list_elem_of_here.
Defined.

(** The link to bob has broken and bob comes before carol in the active
    registry: carol is sent the message all the same, and dave, whose link
    is pending, is not. *)
Lemma failing_send_does_not_stop_broadcast :
  open_links (after broken_link) = [0; 1]
  ∧ failing_links (after broken_link) = [0]
  ∧ result (broadcast (VStr "hi") (after broken_link)) = Return tt
  ∧ sent_on 1 (effects (broadcast (VStr "hi") (after broken_link)))
    = [P2PMessage "CHAT_MESSAGE" (VStr "hi")]
  ∧ sent_on 2 (effects (broadcast (VStr "hi") (after broken_link))) = [].
Proof. vm_compute. done. Qed.

(** ** Links per remote identifier *)

Lemma on_data_handshake_init s h data payload name :
  js_get data "type" = inr (VStr "HANDSHAKE_INIT") →
  js_get data "payload" = inr payload →
  js_get payload "name" = inr name →
  on_data h data s
  = Outcome (Return tt)
      (set_pendingIncoming (JsMap.set (conn_peer s h) h (pendingIncoming s)) s)
      (if onConnectionRequestCallback (callbacks s)
       then [Raise (ConnectionRequested (conn_peer s h) name)] else []).
Proof.
  intros Ht Hp Hn. unfold on_data. rewrite Ht, Hp.
  autounfold with calls. cbn. rewrite Hn. cbn.
  by destruct (onConnectionRequestCallback (callbacks s)).
Qed.

(** C1: in every reachable state each of the three registries holds at most
    one link of a remote identifier [r].  A HANDSHAKE_INIT that arrives on a
    channel of [r] is always filed as the pending-incoming link of [r] and
    announced as a connection request; the pending-outgoing and the active
    registry are left as they are, so a link of [r] there stays beside the
    new one. *)
Theorem registries_per_identifier (s : PeerService) (r : string) :
  reachable s →
  ((length (entries r (connections s)) ≤ 1)%nat
   ∧ (length (entries r (pendingIncoming s)) ≤ 1)%nat
   ∧ (length (entries r (pendingOutgoing s)) ≤ 1)%nat)
  ∧ ∀ h data payload name,
      conn_peer s h = r →
      js_get data "type" = inr (VStr "HANDSHAKE_INIT") →
      js_get data "payload" = inr payload →
      js_get payload "name" = inr name →
      let o := on_data h data s in
      result o = Return tt
      ∧ entries r (pendingIncoming (final o)) = [(r, h)]
      ∧ pendingOutgoing (final o) = pendingOutgoing s
      ∧ connections (final o) = connections s
      ∧ raised (effects o)
        = (if onConnectionRequestCallback (callbacks s)
           then [ConnectionRequested r name] else []).
Proof.
  intros Hwf%reachable_wf. split.
  - destruct Hwf. auto using entries_NoDup.
  - intros h data payload name Hr Ht Hp Hn. cbv zeta.
    rewrite (on_data_handshake_init s h data payload name) by done.
    cbn [result final effects]. rewrite Hr. peer_reads.
    rewrite entries_set by apply (wf_incoming_keys s Hwf).
    by destruct (onConnectionRequestCallback (callbacks s)).
Qed.

Lemma registries_per_identifier_race :
  (length (entries "bob" (pendingOutgoing (after race))) ≤ 1)%nat
  ∧ entries "bob"
      (pendingIncoming (final (on_data 1 (handshake_init "Bob") (after race))))
    = [("bob", 1)].
Proof.
  pose proof (registries_per_identifier (after race) "bob") as H.
  destruct H as ((_ & _ & Hout) & Hinit).
  - exists race. vm_compute. reflexivity.
  - split; [exact Hout|].
    refine (proj1 (proj2 (Hinit 1 (handshake_init "Bob")
                            (VObj [("name", VStr "Bob")]) (VStr "Bob") _ _ _ _)));
      vm_compute; reflexivity.
Defined.

(** Alice has invited bob when bob's HANDSHAKE_INIT arrives: afterwards bob
    has a pending-outgoing and a pending-incoming link. *)
Lemma handshake_init_duplicates_link :
  pendingOutgoing (after crossing) = [("bob", 0)]
  ∧ pendingIncoming (after crossing) = []
  ∧ pendingOutgoing (after race) = [("bob", 0)]
  ∧ pendingIncoming (after race) = [("bob", 1)]
  ∧ link_count (after race) "bob" = 2
  ∧ ¬ (link_count (after race) "bob" ≤ 1)%nat.
Proof. vm_compute. repeat split; try done. lia. Qed.

(** ** The reply to an invitation *)

Lemma on_data_handshake_accept s h data payload name :
  js_get data "type" = inr (VStr "HANDSHAKE_ACCEPT") →
  js_get data "payload" = inr payload →
  js_get payload "name" = inr name →
  on_data h data s
  = Outcome (Return tt)
      (set_connections (JsMap.set (conn_peer s h) h (connections s))
         (set_pendingOutgoing (JsMap.delete (conn_peer s h) (pendingOutgoing s)) s))
      (if onPeerConnectedCallback (callbacks s)
       then [Raise (PeerConnected (conn_peer s h) name)] else []).
Proof.
  intros Ht Hp Hn. unfold on_data. rewrite Ht, Hp.
  autounfold with calls. cbn. rewrite Hn. cbn.
  by destruct (onPeerConnectedCallback (callbacks s)).
Qed.

(** X1: a HANDSHAKE_ACCEPT that arrives on the channel of a pending-outgoing
    link of [r] removes [r] from the pending-outgoing registry, files the
    channel as the one active link of [r], leaves the pending-incoming
    registry alone and calls the peer-connected callback once, if one is
    registered, with the name that the message carries. *)
Theorem handshake_accept_activates
    (s : PeerService) (r : string) (h : handle) (data payload name : JsVal) :
  reachable s →
  JsMap.get r (pendingOutgoing s) = Some h →
  js_get data "type" = inr (VStr "HANDSHAKE_ACCEPT") →
  js_get data "payload" = inr payload →
  js_get payload "name" = inr name →
  let o := on_data h data s in
  result o = Return tt
  ∧ entries r (pendingOutgoing (final o)) = []
  ∧ entries r (connections (final o)) = [(r, h)]
  ∧ pendingIncoming (final o) = pendingIncoming s
  ∧ effects o
    = (if onPeerConnectedCallback (callbacks s)
       then [Raise (PeerConnected r name)] else []).
Proof.
  intros Hwf%reachable_wf Hm Ht Hp Hn.
  pose proof (keyed_conn_peer _ _ _ _ (wf_outgoing s Hwf) Hm) as Hr.
  cbv zeta. rewrite (on_data_handshake_accept s h data payload name) by done.
  cbn [result final effects]. rewrite Hr. peer_reads.
  rewrite entries_set by apply (wf_active_keys s Hwf).
  by rewrite entries_get_None by apply get_delete_eq.
Qed.

Lemma handshake_accept_activates_bob :
  entries "bob" (connections (final (on_data 0 (handshake_accept "Bob") (after inviting))))
  = [("bob", 0)].
Proof.
  refine (proj1 (proj2 (proj2
    (handshake_accept_activates (after inviting) "bob" 0 (handshake_accept "Bob")
       (VObj [("name", VStr "Bob")]) (VStr "Bob") _ _ _ _ _)))).
  - exists inviting. vm_compute. reflexivity.
  - vm_compute. reflexivity.
  - reflexivity.
  - reflexivity.
  - reflexivity.
Defined.

(** ** What one side sends is what the other side reads *)

(** X2: when the channel of an invitation opens and its [send] does not
    fail, the inviting side sends one packet, and the [data] listener of
    the invited side reads that packet as an invitation: it files its
    channel as pending-incoming under the channel's remote identifier and
    passes the inviter's own name to the connection-request callback. *)
Theorem invitation_round_trip (sa sb : PeerService) (ha hb : handle) :
  ¬ send_fails sa ha →
  ∃ packet,
    on_open_outgoing ha sa = Outcome (Return tt) sa [Send ha packet]
    ∧ let o := on_data hb packet sb in
      result o = Return tt
      ∧ JsMap.get (conn_peer sb hb) (pendingIncoming (final o)) = Some hb
      ∧ connections (final o) = connections sb
      ∧ pendingOutgoing (final o) = pendingOutgoing sb
      ∧ effects o
        = (if onConnectionRequestCallback (callbacks sb)
           then [Raise (ConnectionRequested (conn_peer sb hb) (VStr (myName sa)))]
           else []).
Proof.
  intros Hr. exists (handshake_init (myName sa)). split.
  - unfold on_open_outgoing, conn_send, send_fails in *. rewrite !bind_read.
    by destruct (DataConnection.sendMode (conn sa ha)).
  - cbv zeta.
    rewrite (on_data_handshake_init sb hb _ (VObj [("name", VStr (myName sa))])
               (VStr (myName sa))) by done.
    cbn [result final effects]. peer_reads. by rewrite get_set_eq.
Qed.

Lemma invitation_round_trip_alice :
  ∃ packet,
    on_open_outgoing 0 (after inviting) = Outcome (Return tt) (after inviting) [Send 0 packet]
    ∧ effects (on_data 0 packet (after invited))
      = [Raise (ConnectionRequested "alice" (VStr "Alice"))].
Proof.
  destruct (invitation_round_trip (after inviting) (after invited) 0 0)
    as (packet & Hs & _ & _ & _ & _ & He).
  - unfold send_fails. vm_compute. discriminate.
  - exists packet. split; [exact Hs | exact He].
Defined.

(** X3: the packet that [acceptConnection r] sends on the channel of the
    pending-incoming link of [r] is read by the [data] listener of the
    inviting side as the reply: that side files its channel as the active
    link of the channel's remote identifier, drops the identifier from its
    pending-outgoing registry and passes the accepting side's own name to
    the peer-connected callback. *)
Theorem acceptance_round_trip
    (sb : PeerService) (r : string) (hb : handle) (sa : PeerService) (ha : handle) :
  JsMap.get r (pendingIncoming sb) = Some hb →
  ¬ send_fails sb hb →
  ∃ packet,
    sent_on hb (effects (acceptConnection r sb)) = [packet]
    ∧ let o := on_data ha packet sa in
      result o = Return tt
      ∧ JsMap.get (conn_peer sa ha) (connections (final o)) = Some ha
      ∧ JsMap.get (conn_peer sa ha) (pendingOutgoing (final o)) = None
      ∧ pendingIncoming (final o) = pendingIncoming sa
      ∧ effects o
        = (if onPeerConnectedCallback (callbacks sa)
           then [Raise (PeerConnected (conn_peer sa ha) (VStr (myName sb)))]
           else []).
Proof.
  intros Hm Hr. exists (handshake_accept (myName sb)). split.
  - unfold send_fails in Hr. unfold acceptConnection. rewrite bind_read, Hm.
    run_call; try done.
    all: unfold sent_on; cbn; by case_decide.
  - cbv zeta.
    rewrite (on_data_handshake_accept sa ha _ (VObj [("name", VStr (myName sb))])
               (VStr (myName sb))) by done.
    cbn [result final effects]. peer_reads.
    by rewrite get_set_eq, get_delete_eq.
Qed.

Lemma acceptance_round_trip_bob :
  ∃ packet,
    sent_on 0 (effects (acceptConnection "alice" (after invited))) = [packet]
    ∧ effects (on_data 0 packet (after crossing))
      = [Raise (PeerConnected "bob" (VStr "Bob"))].
Proof.
  destruct (acceptance_round_trip (after invited) "alice" 0 (after crossing) 0)
    as (packet & Hs & _ & _ & _ & _ & He).
  - vm_compute. reflexivity.
  - unfold send_fails. vm_compute. discriminate.
  - exists packet. split; [exact Hs | exact He].
Defined.

(** ** The other fan-out calls *)

(** X4: [broadcastDelete], [syncChannels], [broadcastBoard] and
    [broadcastTyping] return normally and do with their packet what
    [broadcast] does with its: every open active link is handed the packet
    once, in the order of the active registry, unless its send fails, and no
    other channel is handed anything.  A link whose send fails is closed and
    dropped inside the call -- its channel reads as not open, no link of its
    remote identifier is left and the peer-disconnected callback, if one is
    registered, is called for it -- while the loop goes on; when no send
    fails the state stays as it is.  The typing packet names the sender by
    the identifier of its peer ([null] while the peer has none) and by its
    own name; without a peer [broadcastTyping] does nothing. *)
Theorem fan_out_calls (s : PeerService) :
  reachable s →
  let handed packet :=
    Outcome (Return tt) (after_sends s) (open_links s ≫= send_effects s packet) in
  (∀ messageId,
     broadcastDelete messageId s
     = handed (P2PMessage "DELETE_MESSAGE" (VObj [("id", VStr messageId)])))
  ∧ (∀ channels, syncChannels channels s = handed (P2PMessage "CHANNEL_SYNC" channels))
  ∧ (∀ data, broadcastBoard data s = handed (P2PMessage "BOARD_UPDATE" data))
  ∧ (∀ channelId isTyping,
     broadcastTyping channelId isTyping s
     = match peer s with
       | Some p =>
           handed (P2PMessage "TYPING_STATUS"
                   (VObj [("userId", from_option VStr VNull (Peer.id p));
                          ("userName", VStr (myName s));
                          ("channelId", VStr channelId);
                          ("isTyping", VBool isTyping)]))
       | None => Outcome (Return tt) s []
       end)
  ∧ (∀ packet h,
     sent_on h (open_links s ≫= send_effects s packet)
     = if decide (h ∈ open_links s ∧ ¬ send_fails s h) then [packet] else [])
  ∧ (∀ packet,
     raised (open_links s ≫= send_effects s packet)
     = if onPeerDisconnectedCallback (callbacks s)
       then PeerDisconnected <$> failing_peers s else [])
  ∧ (∀ h, h ∈ failing_links s →
     DataConnection.open (conn (after_sends s) h) = false
     ∧ link_count (after_sends s) (conn_peer s h) = 0)
  ∧ (failing_links s = [] → after_sends s = s).
Proof.
  intros Hreach. pose proof (reachable_wf s Hreach) as Hwf.
  pose proof (reachable_listened s Hreach) as Hls.
  cbv zeta. split; [|split; [|split; [|split; [|split; [|split; [|split]]]]]].
  - intros messageId. unfold broadcastDelete. by apply fan_out_eq.
  - intros channels. unfold syncChannels. by apply fan_out_eq.
  - intros data. unfold broadcastBoard. by apply fan_out_eq.
  - intros channelId isTyping. unfold broadcastTyping. rewrite bind_read.
    destruct (peer s); [|done]. rewrite bind_read. by apply fan_out_eq.
  - intros packet h. apply sent_on_fan_out, NoDup_open_links, Hwf.
  - intros packet. apply raised_fan_out.
  - intros h Hh. split.
    + by apply (dropped_channels s (failing_links s) h).
    + pose proof (dropped_registries s (failing_links s) (conn_peer s h)) as H.
      cbv zeta in H. rewrite decide_True in H by (by apply list_elem_of_fmap_2).
      destruct H as (Hc & Hi & Ho). unfold link_count, after_sends.
      by rewrite !entries_get_None.
  - unfold after_sends. by intros ->.
Qed.

Lemma fan_out_calls_broken_link :
  effects (broadcastDelete "m1" (after broken_link))
  = [ Raise (PeerDisconnected "bob");
      Send 1 (P2PMessage "DELETE_MESSAGE" (VObj [("id", VStr "m1")])) ]
  ∧ link_count (final (broadcastDelete "m1" (after broken_link))) "bob" = 0.
Proof.
  pose proof (fan_out_calls (after broken_link) (reachable_after broken_link)) as H.
  cbv zeta in H. destruct H as (Hd & _ & _ & _ & _ & _ & Hgone & _).
  rewrite (Hd "m1"). cbn [effects final]. split.
  - vm_compute. reflexivity.
  - apply (Hgone 0). vm_compute. apply list_elem_of_here.
Defined.

(** ** Application messages on the receiving side *)

Lemma P2PMessage_type kind payload :
  js_get (P2PMessage kind payload) "type" = inr (VStr kind).
Proof. reflexivity. Qed.

Lemma P2PMessage_payload kind payload :
  js_get (P2PMessage kind payload) "payload" = inr payload.
Proof. reflexivity. Qed.

(** X5: the [data] listener hands the payload of a CHAT_MESSAGE,
    BOARD_UPDATE or TYPING_STATUS packet, the [id] of a DELETE_MESSAGE
    packet and the array of a CHANNEL_SYNC packet, as the fan-out calls
    build them, to the callback of that kind, once, if one is registered;
    the state stays as it is and nothing is sent. *)
Theorem application_packets_delivered (s : PeerService) (h : handle) :
  (∀ message,
     on_data h (P2PMessage "CHAT_MESSAGE" message) s
     = Outcome (Return tt) s
         (if onMessageCallback (callbacks s)
          then [Raise (MessageArrived message)] else []))
  ∧ (∀ messageId,
     on_data h (P2PMessage "DELETE_MESSAGE" (VObj [("id", VStr messageId)])) s
     = Outcome (Return tt) s
         (if onMessageDeletedCallback (callbacks s)
          then [Raise (MessageDeleted (VStr messageId))] else []))
  ∧ (∀ channels,
     on_data h (P2PMessage "CHANNEL_SYNC" (VArr channels)) s
     = Outcome (Return tt) s
         (if onChannelSyncCallback (callbacks s)
          then [Raise (ChannelSyncReceived (VArr channels))] else []))
  ∧ (∀ data,
     on_data h (P2PMessage "BOARD_UPDATE" data) s
     = Outcome (Return tt) s
         (if onBoardUpdateCallback (callbacks s)
          then [Raise (BoardUpdateReceived data)] else []))
  ∧ (∀ status,
     on_data h (P2PMessage "TYPING_STATUS" status) s
     = Outcome (Return tt) s
         (if onTypingCallback (callbacks s)
          then [Raise (TypingStatusChanged status)] else [])).
Proof.
  repeat split; intros; unfold on_data;
    rewrite P2PMessage_type, P2PMessage_payload;
    autounfold with calls; cbn;
    match goal with
    | |- context [if ?b then _ else _] => by destruct b
    end.
Qed.

(** ** Rejecting, cancelling and disconnecting a link that is there *)

Lemma conn_closed_after_close s h c :
  heap s !! h = Some c →
  DataConnection.open
    (conn (set_heap (alter (DataConnection.set_open false) h (heap s)) s) h) = false.
Proof.
  intros Hc. unfold conn. cbn. by rewrite list_lookup_alter_eq, Hc.
Qed.

(** X6: on a link of [r] in the registry that the action requires,
    [rejectConnection], [cancelRequest] and [disconnectPeer] close the
    link's channel and remove [r] from that registry; no packet is sent.
    When the channel was not open, the two other registries stay as they
    are and only [disconnectPeer] calls the peer-disconnected callback,
    once, if one is registered.  When the channel was open, its [close]
    listener runs inside the call: [r] leaves all three registries and the
    callback is called for [r] -- once by [rejectConnection] and
    [cancelRequest], twice by [disconnectPeer]. *)
Theorem teardown_of_present_link
    (a : LinkAction) (s : PeerService) (r : string) (h : handle) :
  reachable s →
  a ≠ Accept →
  JsMap.get r (required a s) = Some h →
  let o := perform a r s in
  let was_open := DataConnection.open (conn s h) in
  let event :=
    if onPeerDisconnectedCallback (callbacks s)
    then [Raise (PeerDisconnected r)] else [] in
  result o = Return tt
  ∧ effects o
    = Close h :: (if was_open then event else [])
              ++ (if a is Disconnect then event else [])
  ∧ DataConnection.open (conn (final o) h) = false
  ∧ entries r (required a (final o)) = []
  ∧ connections (final o)
    = (if was_open then JsMap.delete r (connections s)
       else if a is Disconnect then JsMap.delete r (connections s) else connections s)
  ∧ pendingIncoming (final o)
    = (if was_open then JsMap.delete r (pendingIncoming s)
       else if a is Reject then JsMap.delete r (pendingIncoming s) else pendingIncoming s)
  ∧ pendingOutgoing (final o)
    = (if was_open then JsMap.delete r (pendingOutgoing s)
       else if a is Cancel then JsMap.delete r (pendingOutgoing s) else pendingOutgoing s).
Proof.
  intros Hreach Ha Hm.
  pose proof (reachable_wf s Hreach) as Hwf.
  pose proof (reachable_listened s Hreach) as Hls.
  assert (filed s r h) as Hfiled.
  { destruct a; [done|..]; simpl in Hm; unfold filed; auto. }
  destruct (filed_channel s r h Hwf Hls Hfiled) as (c & Hc & Hl & Hp).
  pose proof (conn_closed_after_close s h c Hc) as Hclosed.
  cbv zeta. rewrite (conn_lookup s h c Hc).
  destruct a; [done|..]; simpl in Hm; simpl perform.
  - rewrite (rejectConnection_eq s r h c Hm Hc Hl Hp).
    destruct (DataConnection.open c) eqn:Hopen; cbn [result final effects].
    + unfold cleared, shut in *. peer_reads.
      rewrite entries_get_None by apply get_delete_eq.
      by destruct (onPeerDisconnectedCallback (callbacks s)).
    + peer_reads. rewrite entries_get_None by apply get_delete_eq.
      by rewrite Hc.
  - rewrite (cancelRequest_eq s r h c Hm Hc Hl Hp).
    destruct (DataConnection.open c) eqn:Hopen; cbn [result final effects].
    + unfold cleared, shut in *. peer_reads.
      rewrite entries_get_None by apply get_delete_eq.
      by destruct (onPeerDisconnectedCallback (callbacks s)).
    + peer_reads. rewrite entries_get_None by apply get_delete_eq.
      by rewrite Hc.
  - rewrite (disconnectPeer_eq s r h c Hm Hc Hl Hp).
    destruct (DataConnection.open c) eqn:Hopen; cbn [result final effects].
    + unfold cleared, shut in *. peer_reads.
      rewrite entries_get_None by apply get_delete_eq.
      by destruct (onPeerDisconnectedCallback (callbacks s)).
    + peer_reads. rewrite entries_get_None by apply get_delete_eq.
      rewrite Hc. by destruct (onPeerDisconnectedCallback (callbacks s)).
Qed.

Lemma teardown_of_present_link_cancel :
  effects (cancelRequest "bob" (after awaiting))
  = [Close 0; Raise (PeerDisconnected "bob")]
  ∧ entries "bob" (pendingOutgoing (final (cancelRequest "bob" (after awaiting)))) = [].
Proof.
  assert (JsMap.get "bob" (required Cancel (after awaiting)) = Some 0) as Hm
    by (vm_compute; reflexivity).
  assert (Cancel ≠ Accept) as Ha by discriminate.
  pose proof (teardown_of_present_link Cancel (after awaiting) "bob" 0
                (reachable_after awaiting) Ha Hm) as H.
  vm_compute in H. destruct H as (_ & He & _ & Hn & _).
  split; vm_compute; [exact He | exact Hn].
Defined.

(** Alice disconnects bob while the channel is open: the callback is called
    by the [close] listener and again by [disconnectPeer]. *)
Lemma disconnect_of_open_link_raises_twice :
  JsMap.get "bob" (connections (after two_channels)) = Some 0
  ∧ DataConnection.open (conn (after two_channels) 0) = true
  ∧ effects (disconnectPeer "bob" (after two_channels))
    = [Close 0; Raise (PeerDisconnected "bob"); Raise (PeerDisconnected "bob")].
Proof. vm_compute. done. Qed.

(** ** What the registries hold in every reachable state *)

(** X7: in every reachable state an entry of any of the three registries is
    filed under the remote identifier of its channel, and the channel is one
    that the transport handed out; so a channel that is in the registries is
    there under one identifier only. *)
Theorem registries_keyed_by_peer (s : PeerService) (r : string) (h : handle) :
  reachable s →
  JsMap.get r (connections s) = Some h
  ∨ JsMap.get r (pendingIncoming s) = Some h
  ∨ JsMap.get r (pendingOutgoing s) = Some h →
  h < length (heap s)
  ∧ conn_peer s h = r
  ∧ ∀ r', JsMap.get r' (connections s) = Some h
          ∨ JsMap.get r' (pendingIncoming s) = Some h
          ∨ JsMap.get r' (pendingOutgoing s) = Some h → r' = r.
Proof.
  intros Hwf%reachable_wf Hm.
  assert (∀ r0, JsMap.get r0 (connections s) = Some h
                ∨ JsMap.get r0 (pendingIncoming s) = Some h
                ∨ JsMap.get r0 (pendingOutgoing s) = Some h →
                h < length (heap s) ∧ conn_peer s h = r0) as Hkey.
  { intros r0 [H|[H|H]].
    - destruct (wf_active s Hwf r0 h H) as (c & Hc & Hp).
      split; [by eapply lookup_lt_Some|]. unfold conn_peer. by rewrite (conn_lookup s h c).
    - destruct (wf_incoming s Hwf r0 h H) as (c & Hc & Hp).
      split; [by eapply lookup_lt_Some|]. unfold conn_peer. by rewrite (conn_lookup s h c).
    - destruct (wf_outgoing s Hwf r0 h H) as (c & Hc & Hp).
      split; [by eapply lookup_lt_Some|]. unfold conn_peer. by rewrite (conn_lookup s h c). }
  destruct (Hkey r Hm) as [Hlt Hp]. repeat split; try done.
  intros r' Hm'. destruct (Hkey r' Hm') as [_ Hp']. congruence.
Qed.

Lemma registries_keyed_by_peer_race :
  1 < length (heap (after race)) ∧ conn_peer (after race) 1 = "bob".
Proof.
  pose proof (registries_keyed_by_peer (after race) "bob" 1) as H.
  destruct H as (Hlt & Hp & _).
  - exists race. vm_compute. reflexivity.
  - right. left. vm_compute. reflexivity.
  - split; [exact Hlt | exact Hp].
Defined.

(** X8: in every reachable state the channels in the registries have the
    listeners attached.  So when the transport reports the close of a
    channel that is in a registry under [r], no link of [r] is left in any
    registry, the channel reads as not open and the peer-disconnected
    callback, if one is registered, is called once. *)
Theorem close_event_removes_link (s : PeerService) (r : string) (h : handle) :
  reachable s →
  JsMap.get r (connections s) = Some h
  ∨ JsMap.get r (pendingIncoming s) = Some h
  ∨ JsMap.get r (pendingOutgoing s) = Some h →
  let o := step (ConnClose h) s in
  DataConnection.listening (conn s h) = true
  ∧ result o = Return tt
  ∧ link_count (final o) r = 0
  ∧ DataConnection.open (conn (final o) h) = false
  ∧ effects o
    = (if onPeerDisconnectedCallback (callbacks s)
       then [Raise (PeerDisconnected r)] else []).
Proof.
  intros Hreach Hm.
  pose proof (reachable_wf s Hreach) as Hwf.
  pose proof (reachable_listened s Hreach) as Hls.
  destruct (filed_channel s r h Hwf Hls Hm) as (c & Hc & Hl & Hp).
  cbv zeta. cbn [step]. rewrite (channel_closes_eq s h c Hc Hl), Hp.
  cbn [result final effects]. rewrite cleared_link_count.
  repeat split; try done.
  - by rewrite (conn_lookup s h c).
  - change (conn (cleared r (shut h s)) h) with (conn (shut h s) h).
    by rewrite (conn_shut s h c Hc).
Qed.

Lemma close_event_removes_link_race :
  link_count (final (step (ConnClose 1) (after race))) "bob" = 0
  ∧ effects (step (ConnClose 1) (after race)) = [Raise (PeerDisconnected "bob")].
Proof.
  pose proof (close_event_removes_link (after race) "bob" 1) as H.
  destruct H as (_ & _ & Hn & _ & He).
  - exists race. vm_compute. reflexivity.
  - right. left. vm_compute. reflexivity.
  - split; [exact Hn | exact He].
Defined.

(** ** Initialising *)

Lemma initialize_eq s userId userName :
  initialize userId userName s
  = match peer s with
    | Some p =>
        if negb (Peer.destroyed p) && bool_decide (Peer.id p = Some userId)
        then Outcome (Return (Resolved userId)) (set_myName userName s) []
        else Outcome (Return Pending)
               (set_peer (Some (Peer.new userId)) (set_myName userName s))
               [NewPeer userId]
    | None =>
        Outcome (Return Pending)
          (set_peer (Some (Peer.new userId)) (set_myName userName s))
          [NewPeer userId]
    end.
Proof.
  unfold initialize. rewrite bind_update, bind_read. cbn [peer set_myName].
  destruct (peer s) as [p|]; [|done].
  by destruct (negb (Peer.destroyed p) && bool_decide (Peer.id p = Some userId)).
Qed.

Lemma new_peer_is_not_live userName s :
  initialize "" userName (set_peer (Some (Peer.new "")) (set_myName userName s))
  = Outcome (Return Pending) (set_peer (Some (Peer.new "")) (set_myName userName s))
      [NewPeer ""].
Proof. by rewrite initialize_eq. Qed.

(** X9: [initialize userId userName] never touches the three registries or
    the channels, whatever peer the service holds: it stores [userName] and
    afterwards [isInitialized] holds.  It makes a new peer, and leaves the
    promise pending, exactly when the service does not already hold a live
    peer whose identifier is [userId] -- also when the peer it holds was
    destroyed, has another identifier or has none yet.  The new peer has the
    identifier [userId] at once, unless [userId] is empty: then it has none
    until the server gives it one, so a second [initialize] with the empty
    identifier makes another peer. *)
Theorem initialize_outcome (s : PeerService) (userId userName : string) :
  let o := initialize userId userName s in
  let live := match peer s with
              | Some p =>
                  negb (Peer.destroyed p) && bool_decide (Peer.id p = Some userId)
              | None => false
              end in
  connections (final o) = connections s
  ∧ pendingIncoming (final o) = pendingIncoming s
  ∧ pendingOutgoing (final o) = pendingOutgoing s
  ∧ heap (final o) = heap s
  ∧ callbacks (final o) = callbacks s
  ∧ myName (final o) = userName
  ∧ isInitialized (final o) = true
  ∧ peer (final o) = (if live then peer s else Some (Peer.new userId))
  ∧ (Peer.id <$> peer (final o))
    = Some (if live then Some userId
            else if bool_decide (userId = "") then None else Some userId)
  ∧ result o = Return (if live then Resolved userId else Pending)
  ∧ effects o = (if live then [] else [NewPeer userId])
  ∧ (userId = "" → live = false →
     initialize userId userName (final o)
     = Outcome (Return Pending) (final o) [NewPeer userId]).
Proof.
  cbv zeta. rewrite initialize_eq. unfold isInitialized.
  destruct (peer s) as [p|] eqn:Hp.
  2:{ cbn. repeat split. intros -> _. apply new_peer_is_not_live. }
  destruct (Peer.destroyed p) eqn:Hd; cbn [negb andb].
  { cbn. repeat split. intros -> _. apply new_peer_is_not_live. }
  case_bool_decide as Hid; cbn.
  - rewrite Hp, Hd. cbn. by rewrite Hid.
  - repeat split. intros -> _. apply new_peer_is_not_live.
Qed.

Lemma initialize_outcome_empty :
  initialize "" "Alice" (final (initialize "" "Alice" initial))
  = Outcome (Return Pending) (final (initialize "" "Alice" initial)) [NewPeer ""].
Proof.
  pose proof (initialize_outcome initial "" "Alice") as H.
  cbv zeta in H. destruct H as (_ & _ & _ & _ & _ & _ & _ & _ & _ & _ & _ & H).
  apply H; reflexivity.
Defined.

(** Initialising twice with the empty identifier asks the transport for two
    peers; with the identifier "alice", for one. *)
Lemma initialize_empty_identifier_twice :
  (run [Initialize "" "Alice"; Initialize "" "Alice"] initial).2
  = [NewPeer ""; NewPeer ""]
  ∧ (run [Initialize "alice" "Alice"; Initialize "alice" "Alice"] initial).2
    = [NewPeer "alice"]
  ∧ (Peer.id <$> peer (after [Initialize "" "Alice"])) = Some None
  ∧ (Peer.id <$> peer (after [Initialize "" "Alice"; PeerOpened "k3j9"]))
    = Some (Some "k3j9").
Proof. vm_compute. done. Qed.

(** ** Application messages and the registries *)

(** X10: a message that is not a handshake -- its [type] cannot be read, or
    is neither HANDSHAKE_INIT nor HANDSHAKE_ACCEPT -- never changes the
    state, whether the [data] listener returns or throws; it sends nothing,
    closes nothing and calls at most one callback. *)
Theorem application_message_keeps_state (s : PeerService) (h : handle) (data : JsVal) :
  js_get data "type" ≠ inr (VStr "HANDSHAKE_INIT") →
  js_get data "type" ≠ inr (VStr "HANDSHAKE_ACCEPT") →
  let o := on_data h data s in
  final o = s
  ∧ (length (effects o) ≤ 1)%nat
  ∧ Forall (λ e, is_raise e = true) (effects o).
Proof.
  intros Hi Ha. cbv zeta. unfold on_data.
  destruct (js_get data "type") as [e|t] eqn:Ht.
  { cbn. repeat split; [simpl; lia | constructor]. }
  cbn [lift]. rewrite bind_ret.
  assert (js_is_str t "HANDSHAKE_INIT" = false) as ->.
  { apply js_is_str_false. congruence. }
  assert (js_is_str t "HANDSHAKE_ACCEPT" = false) as ->.
  { apply js_is_str_false. congruence. }
  destruct (js_get data "payload") as [e|p] eqn:Hp;
    [|destruct (js_get p "id") as [e|i] eqn:Hid].
  all: run_call; try congruence.
  all: repeat split; simpl; first [lia | by repeat constructor].
Qed.

Lemma application_message_keeps_state_chat :
  final (on_data 0 (P2PMessage "CHAT_MESSAGE" VNull) (after invited)) = after invited.
Proof.
  refine (proj1 (application_message_keeps_state (after invited) 0
                   (P2PMessage "CHAT_MESSAGE" VNull) _ _)); discriminate.
Defined.

(** ** Calls that add nothing to a registry *)

Lemma get_delete_Some {V : Type} (k k' : string) (v : V) (m : list (string * V)) :
  JsMap.get k' (JsMap.delete k m) = Some v → JsMap.get k' m = Some v.
Proof. rewrite get_delete. by case_decide. Qed.

Section KeepsOrDrops.
Context (X : PeerService → list (string * handle)).

Lemma kd_bind {A B : Type} (m : M A) (k : A → M B) :
  keeps_or_drops X m → (∀ a, keeps_or_drops X (k a)) → keeps_or_drops X (m ≫= k).
Proof.
  intros Hm Hk s r h. specialize (Hm s r h). unfold mbind, M_bind.
  destruct (m s) as [[a|e] s1 t1]; cbn in *; [|done].
  specialize (Hk a s1 r h). destruct (k a s1) as [res s2 t2]. cbn in *. auto.
Qed.

Lemma kd_ret {A : Type} (a : A) : keeps_or_drops X (mret a).
Proof. by intros s r h. Qed.

Lemma kd_read {A : Type} (f : PeerService → A) : keeps_or_drops X (read f).
Proof. by intros s r h. Qed.

Lemma kd_emit e : keeps_or_drops X (emit e).
Proof. by intros s r h. Qed.

Lemma kd_throw {A : Type} e : keeps_or_drops X (throw (A := A) e).
Proof. by intros s r h. Qed.

Lemma kd_lift {A : Type} (v : exn + A) : keeps_or_drops X (lift v).
Proof. destruct v; by intros s r h. Qed.

Lemma kd_when b m : keeps_or_drops X m → keeps_or_drops X (when b m).
Proof. unfold when. destruct b; [done|]. intros _. apply kd_ret. Qed.

Lemma kd_update f :
  (∀ s r h, JsMap.get r (X (f s)) = Some h → JsMap.get r (X s) = Some h) →
  keeps_or_drops X (update f).
Proof. intros Hf s r h. apply Hf. Qed.

Lemma kd_fan_out packet :
  (∀ h, keeps_or_drops X (conn_send h packet)) → keeps_or_drops X (fan_out packet).
Proof.
  intros Hsend s r h.
  apply (fan_out_inv (λ s', JsMap.get r (X s') = Some h → JsMap.get r (X s) = Some h));
    [|done].
  intros h' s' Hs' Hget. by apply Hs', (Hsend h').
Qed.
End KeepsOrDrops.

Create HintDb service discriminated.
#[local] Hint Unfold upd_connections upd_pendingIncoming upd_pendingOutgoing upd_conn
  raise conn_send conn_close channel_closes on_close on_error peer_connect
  setupDataListener handleIncomingConnection invite on_open_outgoing on
  finalizeConnection initialize connectToPeer acceptConnection rejectConnection
  cancelRequest disconnectPeer
  broadcast broadcastDelete syncChannels broadcastBoard broadcastTyping : service.

(** Follow the code of a call that only reads, raises, closes, sends and
    deletes. *)
Ltac keeps_or_drops_step :=
  lazymatch goal with
  | |- keeps_or_drops _ (_ ≫= _) => apply kd_bind; [|intros ?]
  | |- keeps_or_drops _ (mret _) => apply kd_ret
  | |- keeps_or_drops _ (read _) => apply kd_read
  | |- keeps_or_drops _ (emit _) => apply kd_emit
  | |- keeps_or_drops _ (throw _) => apply kd_throw
  | |- keeps_or_drops _ (lift _) => apply kd_lift
  | |- keeps_or_drops _ (when _ _) => apply kd_when
  | |- keeps_or_drops _ (fan_out _) => apply kd_fan_out; intros ?
  | |- keeps_or_drops _ (update _) =>
      apply kd_update; intros ? ? ?; cbn;
      first [done | by apply get_delete_Some]
  | |- keeps_or_drops _ (match ?x with _ => _ end) => destruct x
  | |- keeps_or_drops _ _ => progress autounfold with service
  end.

Ltac keeps_or_drops_all := repeat keeps_or_drops_step.

Lemma kd_conn_send_connections h packet : keeps_or_drops connections (conn_send h packet).
Proof. keeps_or_drops_all. Qed.
Lemma kd_conn_close_outgoing h : keeps_or_drops pendingOutgoing (conn_close h).
Proof. keeps_or_drops_all. Qed.

Lemma conn_peer_conn_send s h packet h' :
  conn_peer (final (conn_send h packet s)) h' = conn_peer s h'.
Proof. run_call; first [done | apply conn_peer_shut]. Qed.

(** ** How a link becomes active *)

Lemma js_is_str_true t k : js_is_str t k = true → t = VStr k.
Proof.
  destruct t; simpl; try done. by intros ->%String.eqb_eq.
Qed.

Lemma on_data_activates s h data r h' :
  JsMap.get r (connections s) ≠ Some h' →
  JsMap.get r (connections (final (on_data h data s))) = Some h' →
  h' = h ∧ conn_peer s h = r ∧ js_get data "type" = inr (VStr "HANDSHAKE_ACCEPT").
Proof.
  intros Hno. unfold on_data.
  destruct (js_get data "type") as [e|t] eqn:Ht; [done|].
  cbn [lift]. rewrite bind_ret.
  destruct (js_is_str t "HANDSHAKE_INIT") eqn:Hi.
  { run_call; done. }
  destruct (js_is_str t "HANDSHAKE_ACCEPT") eqn:Ha.
  - apply js_is_str_true in Ha as ->.
    run_call; try done.
    all: peer_reads; rewrite get_set; case_decide; [|done].
    all: by intros [= ->].
  - run_call; done.
Qed.

(** X11: in a reachable state, an event puts a channel [h] into the active
    registry under [r], where it was not before, only in two ways: the
    application accepts the pending invitation of [r] that came on [h], or a
    HANDSHAKE_ACCEPT arrives on [h], a channel to [r] with the listeners
    attached.  No other call and no other transport event makes a link
    active. *)
Theorem activation_needs_handshake (s : PeerService) (e : Event) (r : string) (h : handle) :
  reachable s →
  JsMap.get r (connections s) ≠ Some h →
  JsMap.get r (connections (final (step e s))) = Some h →
  (e = AcceptConnection r ∧ JsMap.get r (pendingIncoming s) = Some h)
  ∨ (∃ data, e = ConnData h data
             ∧ js_get data "type" = inr (VStr "HANDSHAKE_ACCEPT")
             ∧ conn_peer s h = r
             ∧ DataConnection.listening (conn s h) = true).
Proof.
  intros Hwf%reachable_wf Hno.
  assert (∀ m : M unit, keeps_or_drops connections m →
            JsMap.get r (connections (final (m s))) = Some h → False) as Hkd.
  { intros m Hm Hget. by apply Hno, (Hm s r h). }
  destruct e; cbn [step].
  3:{ (* the application accepts an invitation *)
      unfold acceptConnection. rewrite bind_read.
      destruct (JsMap.get peerId (pendingIncoming s)) as [h'|] eqn:Hm; [|done].
      pose proof (keyed_conn_peer _ _ _ _ (wf_incoming s Hwf) Hm) as Hp.
      rewrite bind_read.
      rewrite (bind_Return _ _ _ tt (conn_send_returns h' _ s)). cbn [final].
      pose proof (kd_conn_send_connections h' (handshake_accept (myName s)) s r h) as Hsend.
      pose proof (conn_peer_conn_send s h' (handshake_accept (myName s)) h') as Hp1.
      rewrite Hp in Hp1.
      destruct (conn_send h' (handshake_accept (myName s)) s) as [res s1 t1].
      cbn [final] in *. unfold finalizeConnection. run_call.
      all: peer_reads; rewrite get_set; case_decide.
      all: try (intros Hget; by destruct Hno; apply Hsend).
      all: intros [= <-]; left; split; congruence. }
  14:{ (* a message arrives *)
      rewrite bind_read. unfold when.
      destruct (DataConnection.listening (conn s h0)) eqn:Hl; [|done].
      intros (-> & Hp & Ht)%on_data_activates; [|done].
      right. by exists data. }
  all: intros Hget; exfalso; revert Hget; apply Hkd.
  all: keeps_or_drops_all.
Qed.

Lemma activation_needs_handshake_bob :
  JsMap.get "alice" (pendingIncoming (after invited)) = Some 0.
Proof.
  destruct (activation_needs_handshake (after invited) (AcceptConnection "alice") "alice" 0)
    as [[_ H]|(data & Hd & _)].
  - exists invited. vm_compute. reflexivity.
  - vm_compute. discriminate.
  - vm_compute. reflexivity.
  - exact H.
  - discriminate Hd.
Defined.

(** ** How a link becomes pending *)

Lemma on_data_invites s h data r h' :
  JsMap.get r (pendingIncoming s) ≠ Some h' →
  JsMap.get r (pendingIncoming (final (on_data h data s))) = Some h' →
  h' = h ∧ conn_peer s h = r ∧ js_get data "type" = inr (VStr "HANDSHAKE_INIT").
Proof.
  intros Hno. unfold on_data.
  destruct (js_get data "type") as [e|t] eqn:Ht; [done|].
  cbn [lift]. rewrite bind_ret.
  destruct (js_is_str t "HANDSHAKE_INIT") eqn:Hi.
  - apply js_is_str_true in Hi as ->.
    run_call; try done.
    all: peer_reads; rewrite get_set; case_decide; [|done].
    all: by intros [= ->].
  - run_call; done.
Qed.

Lemma kd_on_data_outgoing h data : keeps_or_drops pendingOutgoing (on_data h data).
Proof.
  intros s r h'. unfold on_data. run_call; try done.
  all: by intros ?%get_delete_Some.
Qed.

Lemma length_heap_conn_close s h : length (heap (final (conn_close h s))) = length (heap s).
Proof. run_call; by rewrite ?length_alter. Qed.

(** X12: an event puts a channel [h] into the pending-outgoing registry
    under [r], where it was not before, only if it is the call
    [connectToPeer r] on a service that has a peer and no active link of
    [r], and [h] is the channel that the call opens.  It puts [h] into the
    pending-incoming registry under [r] only if it is a HANDSHAKE_INIT that
    arrives on [h], a channel to [r] with the listeners attached. *)
Theorem pending_needs_invitation (s : PeerService) (e : Event) (r : string) (h : handle) :
  (JsMap.get r (pendingOutgoing s) ≠ Some h →
   JsMap.get r (pendingOutgoing (final (step e s))) = Some h →
   e = ConnectToPeer r
   ∧ h = length (heap s)
   ∧ is_Some (peer s)
   ∧ JsMap.get r (connections s) = None)
  ∧ (JsMap.get r (pendingIncoming s) ≠ Some h →
     JsMap.get r (pendingIncoming (final (step e s))) = Some h →
     ∃ data, e = ConnData h data
             ∧ js_get data "type" = inr (VStr "HANDSHAKE_INIT")
             ∧ conn_peer s h = r
             ∧ DataConnection.listening (conn s h) = true).
Proof.
  split; intros Hno.
  - assert (∀ m : M unit, keeps_or_drops pendingOutgoing m →
              JsMap.get r (pendingOutgoing (final (m s))) = Some h → False) as Hkd.
    { intros m Hm Hget. by apply Hno, (Hm s r h). }
    destruct e; cbn [step].
    2:{ (* the application invites a peer *)
        unfold connectToPeer, JsMap.has. rewrite bind_read.
        destruct (peer s) as [p|] eqn:Hpeer; [|done]. rewrite bind_read.
        destruct (JsMap.get peerId (connections s)) as [a|] eqn:Ha; [done|].
        rewrite bind_read.
        assert (∀ s1, length (heap s1) = length (heap s) →
                  (∀ h0, JsMap.get r (pendingOutgoing s1) = Some h0 →
                         JsMap.get r (pendingOutgoing s) = Some h0) →
                  JsMap.get r (pendingOutgoing (final (invite peerId s1))) = Some h →
                  ConnectToPeer peerId = ConnectToPeer r ∧ h = length (heap s)
                  ∧ is_Some (Some p) ∧ JsMap.get r (connections s) = None) as Hinvite.
        { intros s1 Hlen Hsub. autounfold with calls. cbn. rewrite get_set.
          case_decide as Heq.
          - intros [= <-]. subst. by rewrite Hlen.
          - intros Hget. destruct Hno. by apply Hsub. }
        destruct (JsMap.get peerId (pendingOutgoing s)) as [old|] eqn:Ho.
        - rewrite (bind_Return _ _ _ tt (conn_close_returns old s)). cbn [final].
          apply Hinvite; [apply length_heap_conn_close|].
          intros h0. apply kd_conn_close_outgoing.
        - rewrite bind_ret. by apply Hinvite. }
    14:{ rewrite bind_read. unfold when.
         destruct (DataConnection.listening (conn s h0)); [|done].
         intros Hget. exfalso. revert Hget. apply Hkd, kd_on_data_outgoing. }
    all: intros Hget; exfalso; revert Hget; apply Hkd.
    all: keeps_or_drops_all.
  - assert (∀ m : M unit, keeps_or_drops pendingIncoming m →
              JsMap.get r (pendingIncoming (final (m s))) = Some h → False) as Hkd.
    { intros m Hm Hget. by apply Hno, (Hm s r h). }
    destruct e; cbn [step].
    15:{ rewrite bind_read. unfold when.
         destruct (DataConnection.listening (conn s h0)) eqn:Hl; [|done].
         intros (-> & Hp & Ht)%on_data_invites; [|done].
         by exists data. }
    all: intros Hget; exfalso; revert Hget; apply Hkd.
    all: keeps_or_drops_all.
Qed.

Lemma pending_needs_invitation_bob :
  1 = length (heap (after inviting))
  ∧ JsMap.get "carol" (connections (after inviting)) = None.
Proof.
  destruct (proj1 (pending_needs_invitation (after inviting) (ConnectToPeer "carol") "carol" 1))
    as (_ & Hh & _ & Hc).
  - vm_compute. discriminate.
  - vm_compute. reflexivity.
  - split; [exact Hh | exact Hc].
Defined.

(** ** From the invitation to the active link *)

Lemma connectToPeer_opens s p r :
  wf s → listened s →
  peer s = Some p →
  JsMap.get r (connections s) = None →
  let h := length (heap s) in
  let retried := match JsMap.get r (pendingOutgoing s) with
                 | Some old => DataConnection.open (conn s old)
                 | None => false
                 end in
  ∃ s1 eff,
    connectToPeer r s = Outcome (Return tt) s1 eff
    ∧ sent_on h eff = []
    ∧ raised eff
      = (if retried && onPeerDisconnectedCallback (callbacks s)
         then [PeerDisconnected r] else [])
    ∧ heap s1 !! h
      = Some (DataConnection.mk r false (Some SendHandshake) true Delivers)
    ∧ JsMap.get r (pendingOutgoing s1) = Some h
    ∧ connections s1 = connections s
    ∧ pendingIncoming s1
      = (if retried then JsMap.delete r (pendingIncoming s) else pendingIncoming s)
    ∧ myName s1 = myName s
    ∧ callbacks s1 = callbacks s.
Proof.
  intros Hwf Hls Hp Ha. cbv zeta.
  unfold connectToPeer, JsMap.has. rewrite bind_read, Hp, bind_read, Ha, bind_read.
  assert (∀ s0 pre,
            length (heap s0) = length (heap s) →
            sent_on (length (heap s)) pre = [] →
            ∃ s1 eff,
              Outcome (result (invite r s0)) (final (invite r s0))
                (pre ++ effects (invite r s0))
              = Outcome (Return tt) s1 eff
              ∧ sent_on (length (heap s)) eff = []
              ∧ raised eff = raised pre
              ∧ heap s1 !! length (heap s)
                = Some (DataConnection.mk r false (Some SendHandshake) true Delivers)
              ∧ JsMap.get r (pendingOutgoing s1) = Some (length (heap s))
              ∧ connections s1 = connections s0
              ∧ pendingIncoming s1 = pendingIncoming s0
              ∧ myName s1 = myName s0
              ∧ callbacks s1 = callbacks s0) as Hinvite.
  { intros s0 pre Hlen Hpre.
    destruct (invite_facts s0 r) as (Heq & Hh & _ & Hout & Hact & Hinc & Hname & Hcb).
    rewrite Hlen in *. rewrite Heq. cbn [result final effects].
    eexists _, _. split; [reflexivity|].
    unfold sent_on, raised in *. rewrite !omap_app, Hpre, Hout, get_set_eq. cbn.
    by rewrite app_nil_r. }
  destruct (JsMap.get r (pendingOutgoing s)) as [old|] eqn:Ho.
  - destruct (filed_channel s r old Hwf Hls) as (c & Hc & Hl & Hpc);
      [by right; right|].
    rewrite (bind_Return _ _ _ tt (conn_close_returns old s)).
    rewrite (conn_close_eq s old c Hc Hl), (conn_lookup s old c Hc), Hpc.
    destruct (DataConnection.open c); cbn [final effects andb].
    + destruct (Hinvite (cleared r (shut old s))
                  (Close old :: (if onPeerDisconnectedCallback (callbacks s)
                                 then [Raise (PeerDisconnected r)] else [])))
        as (s1 & eff & Heq & ? & Hr & ? & ? & Hact & Hinc & ? & ?).
      { unfold cleared, shut. cbn. by rewrite length_alter. }
      { by destruct (onPeerDisconnectedCallback (callbacks s)). }
      exists s1, eff. split; [exact Heq|]. repeat split; try done.
      * rewrite Hr. by destruct (onPeerDisconnectedCallback (callbacks s)).
      * rewrite Hact. unfold cleared, shut. cbn. by apply delete_absent.
    + destruct (Hinvite s [Close old]) as (s1 & eff & Heq & ?); [done|done|].
      by exists s1, eff.
  - rewrite bind_ret. destruct (Hinvite s []) as (s1 & eff & Heq & ?); [done|done|].
    exists s1, eff. split; [|done]. rewrite <- Heq. by destruct (invite r s).
Qed.

Lemma step_open_outgoing s h c :
  heap s !! h = Some c →
  DataConnection.onOpen c = Some SendHandshake →
  DataConnection.sendMode c = Delivers →
  step (ConnOpen h) s
  = Outcome (Return tt)
      (set_heap (alter (DataConnection.set_open true) h (heap s)) s)
      [Send h (handshake_init (myName s))].
Proof.
  intros Hc Ho Hs. cbn [step]. rewrite bind_read, (conn_lookup s h c Hc), Ho.
  unfold upd_conn, on_open_outgoing, conn_send.
  rewrite bind_update, bind_read, bind_read.
  unfold conn. cbn. by rewrite list_lookup_alter_eq, Hc; cbn; rewrite Hs.
Qed.

(** X13: on a reachable service with a peer and no active link of [r], the
    call [connectToPeer r], the open of the new channel and the arrival of
    the HANDSHAKE_ACCEPT on it lead to one active link of [r] on that
    channel and no pending-outgoing one.  On the way exactly one packet is
    sent on the channel, the HANDSHAKE_INIT with the service's own name, and
    peer-connected is called, once if it is registered, with the name of
    the reply.  When the call replaces an invitation to [r] whose channel
    was open, closing that channel first calls peer-disconnected for [r], if
    it is registered, and takes [r] out of the pending-incoming registry;
    otherwise no other callback is called and that registry stays as it
    is. *)
Theorem invitation_completes
    (s : PeerService) (p : Peer.t) (r : string) (name : string) :
  reachable s →
  peer s = Some p →
  JsMap.get r (connections s) = None →
  let h := length (heap s) in
  let retried := match JsMap.get r (pendingOutgoing s) with
                 | Some old => DataConnection.open (conn s old)
                 | None => false
                 end in
  let res := run [ConnectToPeer r; ConnOpen h; ConnData h (handshake_accept name)] s in
  entries r (connections res.1) = [(r, h)]
  ∧ entries r (pendingOutgoing res.1) = []
  ∧ pendingIncoming res.1
    = (if retried then JsMap.delete r (pendingIncoming s) else pendingIncoming s)
  ∧ DataConnection.open (conn res.1 h) = true
  ∧ sent_on h res.2 = [handshake_init (myName s)]
  ∧ raised res.2
    = (if retried && onPeerDisconnectedCallback (callbacks s)
       then [PeerDisconnected r] else [])
      ++ (if onPeerConnectedCallback (callbacks s)
          then [PeerConnected r (VStr name)] else []).
Proof.
  intros Hreach Hp Ha. cbv zeta.
  pose proof (reachable_wf s Hreach) as Hwf.
  pose proof (reachable_listened s Hreach) as Hls.
  destruct (connectToPeer_opens s p r Hwf Hls Hp Ha)
    as (s1 & eff & H1 & Hsent & Hraised & Hh & Hout & Hact & Hinc & Hname & Hcb).
  set (h := length (heap s)) in *.
  cbn [run].
  change (step (ConnectToPeer r) s) with (connectToPeer r s). rewrite H1.
  rewrite (step_open_outgoing s1 h _ Hh) by done.
  set (s2 := set_heap (alter (DataConnection.set_open true) h (heap s1)) s1).
  cbn [step].
  assert (heap s2 !! h
          = Some (DataConnection.mk r true (Some SendHandshake) true Delivers)) as Hh2.
  { unfold s2. cbn. by rewrite list_lookup_alter_eq, Hh. }
  rewrite bind_read, (conn_lookup s2 h _ Hh2). cbn [DataConnection.listening when].
  rewrite (on_data_handshake_accept s2 h _ (VObj [("name", VStr name)]) (VStr name))
    by done.
  assert (conn_peer s2 h = r) as -> by (unfold conn_peer; by rewrite (conn_lookup s2 h _ Hh2)).
  cbn [fst snd]. unfold s2. peer_reads.
  rewrite Hact, Hinc, Hcb, Hname.
  rewrite entries_set by apply (wf_active_keys s Hwf).
  rewrite entries_get_None by apply get_delete_eq.
  rewrite list_lookup_alter_eq, Hh. cbn.
  unfold sent_on, raised in *. rewrite !omap_app, Hsent, Hraised. cbn.
  rewrite decide_True by done.
  by destruct (onPeerConnectedCallback (callbacks s)).
Qed.

Lemma invitation_completes_retry :
  entries "bob"
    (connections
       (run [ConnectToPeer "bob"; ConnOpen 1; ConnData 1 (handshake_accept "Bob")]
          (after awaiting)).1)
  = [("bob", 1)]
  ∧ raised
      (run [ConnectToPeer "bob"; ConnOpen 1; ConnData 1 (handshake_accept "Bob")]
         (after awaiting)).2
    = [PeerDisconnected "bob"].
Proof.
  assert (peer (after awaiting) = Some (Peer.mk (Some "alice") false)) as Hp
    by (vm_compute; reflexivity).
  assert (JsMap.get "bob" (connections (after awaiting)) = None) as Ha
    by (vm_compute; reflexivity).
  pose proof (invitation_completes (after awaiting) _ "bob" "Bob"
                (reachable_after awaiting) Hp Ha) as H.
  vm_compute in H. destruct H as (Hc & _ & _ & _ & _ & He).
  split; vm_compute; [exact Hc | exact He].
Defined.

(** ** The application's lists *)

Lemma find_id_None {A : Type} (key : A → string) (k : string) (l : list A) :
  find (λ x, bool_decide (key x = k)) l = None ↔ k ∉ key <$> l.
Proof.
  induction l as [|x l IH]; simpl.
  - split; [intros _; apply not_elem_of_nil | done].
  - rewrite not_elem_of_cons. case_bool_decide; subst.
    + split; [done | intros [? _]; congruence].
    + rewrite IH. split; [intros ?; split; [congruence | done] | tauto].
Qed.

Lemma find_id_Some {A : Type} (key : A → string) (k : string) (l : list A) x :
  find (λ x, bool_decide (key x = k)) l = Some x → k ∈ key <$> l.
Proof.
  intros Hf. destruct (decide (k ∈ key <$> l)) as [|Hn]; [done|].
  apply find_id_None in Hn. congruence.
Qed.

(** X14: the updater of [onConnectionRequest] keeps the pending requests
    free of duplicate identifiers: a request of a peer that is listed
    changes nothing (the first name stays); one of a new peer is appended.
    Either way the peer is listed afterwards, the earlier requests stay in
    place, and a second request of the same peer has no effect. *)
Theorem connection_requests_unique
    (peerId peerName : string) (prev : list ConnectionRequest.t) :
  NoDup (ConnectionRequest.peerId <$> prev) →
  let next := onConnectionRequest_pendingRequests peerId peerName prev in
  NoDup (ConnectionRequest.peerId <$> next)
  ∧ peerId ∈ ConnectionRequest.peerId <$> next
  ∧ prev `prefix_of` next
  ∧ (peerId ∈ ConnectionRequest.peerId <$> prev → next = prev)
  ∧ (peerId ∉ ConnectionRequest.peerId <$> prev →
     next = prev ++ [ConnectionRequest.mk peerId peerName])
  ∧ ∀ peerName', onConnectionRequest_pendingRequests peerId peerName' next = next.
Proof.
  intros Hnd. cbv zeta. unfold onConnectionRequest_pendingRequests.
  destruct (find _ prev) as [x|] eqn:Hf.
  - apply find_id_Some in Hf as Hin. repeat split; try done.
    intros peerName'. by rewrite Hf.
  - apply find_id_None in Hf as Hin.
    assert (peerId ∈ ConnectionRequest.peerId <$> prev ++ [ConnectionRequest.mk peerId peerName])
      as Hin'.
    { rewrite fmap_app, elem_of_app. right. simpl. apply list_elem_of_here. }
    repeat split; try done.
    + rewrite fmap_app. apply NoDup_app. repeat split; [done| |apply NoDup_singleton].
      simpl. intros x Hx ->%list_elem_of_singleton. done.
    + by apply prefix_app_r.
    + intros peerName'.
      destruct (find _ (prev ++ _)) as [y|] eqn:Hf'; [done|].
      by apply find_id_None in Hf'.
Qed.

Lemma connection_requests_unique_alice :
  onConnectionRequest_pendingRequests "alice" "Alicia"
    (onConnectionRequest_pendingRequests "alice" "Alice" [])
  = [ConnectionRequest.mk "alice" "Alice"].
Proof.
  destruct (connection_requests_unique "alice" "Alice" []) as (_ & _ & _ & _ & _ & H).
  - apply NoDup_nil_2.
  - exact (H "Alicia").
Defined.

(** X15: after the three updaters of [onPeerConnected] the peer is in no
    pending request and in no sent request, while the requests of other
    peers stay; it is in the list of peers, which stays free of duplicate
    identifiers and keeps its earlier entries in place.  A peer that was not
    listed is appended as connected, under the name that came with the
    event, or under its identifier when that name is empty; for a peer that
    was listed the list is unchanged. *)
Theorem peer_connected_lists
    (peerId peerName : string) (pending : list ConnectionRequest.t)
    (sent : list string) (peers : list PeerUser.t) :
  NoDup (PeerUser.id <$> peers) →
  let pending' := onPeerConnected_pendingRequests peerId pending in
  let sent' := onPeerConnected_sentRequests peerId sent in
  let peers' := onPeerConnected_peers peerId peerName peers in
  (peerId ∉ ConnectionRequest.peerId <$> pending')
  ∧ (∀ r, r ∈ pending → ConnectionRequest.peerId r ≠ peerId → r ∈ pending')
  ∧ (peerId ∉ sent')
  ∧ (∀ id, id ∈ sent → id ≠ peerId → id ∈ sent')
  ∧ NoDup (PeerUser.id <$> peers')
  ∧ peerId ∈ PeerUser.id <$> peers'
  ∧ peers `prefix_of` peers'
  ∧ (peerId ∈ PeerUser.id <$> peers → peers' = peers)
  ∧ (peerId ∉ PeerUser.id <$> peers →
     peers' = peers ++ [PeerUser.mk peerId (if bool_decide (peerName = "")
                                            then peerId else peerName) true]).
Proof.
  intros Hnd. cbv zeta.
  unfold onPeerConnected_pendingRequests, onPeerConnected_sentRequests,
    onPeerConnected_peers, name_or_id.
  split; [|split; [|split; [|split]]].
  - intros (r & Hr & [Hne _]%list_elem_of_filter)%list_elem_of_fmap. congruence.
  - intros r Hr Hne. by apply list_elem_of_filter.
  - by intros [Hne _]%list_elem_of_filter.
  - intros id Hid Hne. by apply list_elem_of_filter.
  - destruct (find _ peers) as [x|] eqn:Hf.
    + apply find_id_Some in Hf as Hin. repeat split; done.
    + apply find_id_None in Hf as Hin. repeat split; try done.
      * rewrite fmap_app. apply NoDup_app. repeat split; [done| |apply NoDup_singleton].
        simpl. intros x Hx ->%list_elem_of_singleton. done.
      * rewrite fmap_app, elem_of_app. right. simpl. apply list_elem_of_here.
      * by apply prefix_app_r.
Qed.

Lemma peer_connected_lists_bob :
  onPeerConnected_peers "bob" "" [] = [PeerUser.mk "bob" "bob" true]
  ∧ "bob" ∉ onPeerConnected_sentRequests "bob" ["bob"; "carol"].
Proof.
  pose proof (peer_connected_lists "bob" "" [] ["bob"; "carol"] []) as H.
  destruct H as (_ & _ & Hs & _ & _ & _ & _ & _ & Hp).
  - apply NoDup_nil_2.
  - split; [|exact Hs]. apply Hp. apply not_elem_of_nil.
Defined.

Lemma filter_none {A : Type} (P : A → Prop) `{!∀ x, Decision (P x)} (l : list A) :
  (∀ x, x ∈ l → ¬ P x) → filter P l = [].
Proof.
  induction l as [|x l IH]; [done|]. intros Hall.
  rewrite filter_cons_False by (apply Hall, list_elem_of_here).
  apply IH. intros y Hy. by apply Hall, list_elem_of_further.
Qed.

(** X16: the updater of [onChannelSync] keeps the channels it has, in
    place, and appends the synced channels whose identifier it does not
    have; so every synced identifier is listed afterwards, nothing else is
    added, a list without duplicate identifiers stays so when the synced
    list has none, and syncing the same channels again changes nothing. *)
Theorem channel_sync_merge (syncedChannels prev : list Channel.t) :
  let next := onChannelSync_channels syncedChannels prev in
  prev `prefix_of` next
  ∧ (∀ c, c ∈ syncedChannels → Channel.id c ∈ Channel.id <$> next)
  ∧ (∀ c, c ∈ next →
       c ∈ prev ∨ (c ∈ syncedChannels ∧ Channel.id c ∉ Channel.id <$> prev))
  ∧ (NoDup (Channel.id <$> prev) → NoDup (Channel.id <$> syncedChannels) →
     NoDup (Channel.id <$> next))
  ∧ onChannelSync_channels syncedChannels next = next.
Proof.
  cbv zeta. unfold onChannelSync_channels.
  set (fresh_in := λ (l : list Channel.t) (c : Channel.t),
                     Channel.id c ∉ Channel.id <$> l).
  assert (∀ c, c ∈ syncedChannels →
               Channel.id c ∈ Channel.id <$> prev ++ filter (fresh_in prev) syncedChannels)
    as Hall.
  { intros c Hc. rewrite fmap_app, elem_of_app.
    destruct (decide (Channel.id c ∈ Channel.id <$> prev)) as [|Hn]; [by left|].
    right. apply list_elem_of_fmap_2. by apply list_elem_of_filter. }
  split; [by apply prefix_app_r|].
  split; [done|]. split; [|split].
  - intros c [Hc|[Hn Hc]%list_elem_of_filter]%elem_of_app; [by left | by right].
  - intros Hp Hs. rewrite fmap_app. apply NoDup_app. repeat split; [done| |].
    + intros x Hx (c & -> & [Hn _]%list_elem_of_filter)%list_elem_of_fmap. done.
    + clear Hall. induction syncedChannels as [|c l IH]; [done|].
      apply NoDup_cons in Hs as [Hc Hl]. simpl.
      destruct (decide (fresh_in prev c)).
      * rewrite filter_cons_True by done. simpl. apply NoDup_cons. split; [|by apply IH].
        intros (c' & Hid & [_ Hin]%list_elem_of_filter)%list_elem_of_fmap.
        apply Hc. rewrite Hid. by apply list_elem_of_fmap_2.
      * rewrite filter_cons_False by done. by apply IH.
  - rewrite <- (app_nil_r (prev ++ filter _ _)) at 2. f_equal.
    apply filter_none. intros c Hc Hfresh. by apply Hfresh, Hall.
Qed.

(** ** What is stored of the messages *)

(** X17: [saveMessages] stores, under the key [nexus_messages], the text of
    the most recent messages: a suffix of the list it is given, of at most
    500 messages -- the whole list when it is no longer than that.  A
    message that was just appended is always among them. *)
Theorem saved_messages_are_recent {Message : Type}
    (JSON_stringify : list Message → string) (messages : list Message) :
  ∃ recent,
    saveMessages JSON_stringify messages = ("nexus_messages", JSON_stringify recent)
    ∧ recent `suffix_of` messages
    ∧ length recent = length messages `min` 500
    ∧ ((length messages ≤ 500)%nat → recent = messages)
    ∧ (∀ prev msg, messages = prev ++ [msg] → last recent = Some msg).
Proof.
  exists (slice_last 500 messages). unfold saveMessages, slice_last.
  split; [done|]. split; [apply suffix_drop|]. split; [rewrite length_drop; lia|].
  split.
  - intros Hle. replace (length messages - 500) with 0 by lia. done.
  - intros prev msg ->. rewrite length_app. simpl.
    rewrite drop_app_le by lia. apply last_snoc.
Qed.

(** ** From the incoming channel to the active link *)

Lemma step_peer_connection s p remote :
  peer s = Some p →
  step (PeerConnection remote) s
  = Outcome (Return tt)
      (set_heap (alter (DataConnection.set_onOpen SetupListener) (length (heap s))
                   (heap s ++ [DataConnection.fresh remote])) s)
      [].
Proof. intros Hp. cbn [step]. rewrite bind_read, Hp. by run_call. Qed.

(** X18: on a reachable service with a peer, a channel that comes in from
    [remote] has no listeners until it reports open: data that arrives
    before is ignored.  Once it is open, a HANDSHAKE_INIT on it is filed as
    the pending-incoming link of [remote] and announced with the name it
    carries; [acceptConnection remote] then sends the HANDSHAKE_ACCEPT with
    the service's own name on that channel, and the channel is the one
    active link of [remote], with no pending-incoming link left. *)
Theorem incoming_invitation_completes
    (s : PeerService) (p : Peer.t) (remote name : string) (early : JsVal) :
  reachable s →
  peer s = Some p →
  let h := length (heap s) in
  let res := run [PeerConnection remote; ConnOpen h;
                  ConnData h (handshake_init name); AcceptConnection remote] s in
  run [PeerConnection remote; ConnData h early] s = run [PeerConnection remote] s
  ∧ entries remote (connections res.1) = [(remote, h)]
  ∧ entries remote (pendingIncoming res.1) = []
  ∧ pendingOutgoing res.1 = pendingOutgoing s
  ∧ sent_on h res.2 = [handshake_accept (myName s)]
  ∧ raised res.2
    = (if onConnectionRequestCallback (callbacks s)
       then [ConnectionRequested remote (VStr name)] else [])
      ++ (if onPeerConnectedCallback (callbacks s)
          then [PeerConnected remote (VStr remote)] else []).
Proof.
  intros Hwf%reachable_wf Hp. cbv zeta.
  set (h := length (heap s)).
  set (s1 := set_heap (alter (DataConnection.set_onOpen SetupListener) h
                         (heap s ++ [DataConnection.fresh remote])) s).
  assert (heap s1 !! h
          = Some (DataConnection.mk remote false (Some SetupListener) false Delivers)) as Hh1.
  { unfold s1. cbn. by rewrite list_lookup_alter_eq, list_lookup_middle. }
  split.
  { cbn [run]. rewrite (step_peer_connection s p remote Hp). fold h. fold s1.
    cbn [step]. by rewrite bind_read, (conn_lookup s1 h _ Hh1). }
  cbn [run]. rewrite (step_peer_connection s p remote Hp). fold h. fold s1.
  (* the channel opens *)
  assert (step (ConnOpen h) s1
          = Outcome (Return tt)
              (set_heap (alter (DataConnection.set_listening true) h
                           (alter (DataConnection.set_open true) h (heap s1))) s1) [])
    as Hopen.
  { cbn [step]. rewrite bind_read, (conn_lookup s1 h _ Hh1).
    unfold upd_conn, setupDataListener, upd_conn. by rewrite bind_update. }
  rewrite Hopen.
  set (s2 := set_heap (alter (DataConnection.set_listening true) h
                         (alter (DataConnection.set_open true) h (heap s1))) s1).
  assert (heap s2 !! h
          = Some (DataConnection.mk remote true (Some SetupListener) true Delivers)) as Hh2.
  { unfold s2. cbn [heap set_heap]. by rewrite !list_lookup_alter_eq, Hh1. }
  (* the invitation arrives *)
  cbn [step]. rewrite bind_read, (conn_lookup s2 h _ Hh2).
  cbn [DataConnection.listening when].
  rewrite (on_data_handshake_init s2 h _ (VObj [("name", VStr name)]) (VStr name)) by done.
  assert (conn_peer s2 h = remote) as ->
    by (unfold conn_peer; by rewrite (conn_lookup s2 h _ Hh2)).
  set (s3 := set_pendingIncoming (JsMap.set remote h (pendingIncoming s2)) s2).
  (* the application accepts *)
  assert (acceptConnection remote s3
          = Outcome (Return tt)
              (set_connections (JsMap.set remote h (connections s3))
                 (set_pendingIncoming (JsMap.delete remote (pendingIncoming s3)) s3))
              (Send h (handshake_accept (myName s3))
               :: (if onPeerConnectedCallback (callbacks s3)
                   then [Raise (PeerConnected remote (VStr remote))] else [])))
    as Haccept.
  { unfold acceptConnection. rewrite bind_read.
    assert (JsMap.get remote (pendingIncoming s3) = Some h) as -> by apply get_set_eq.
    rewrite bind_read. unfold mbind at 1, M_bind.
    assert (conn s3 h = DataConnection.mk remote true (Some SetupListener) true Delivers)
      as Hc3 by apply (conn_lookup s2 h _ Hh2).
    assert (conn_send h (handshake_accept (myName s3)) s3
            = Outcome (Return tt) s3 [Send h (handshake_accept (myName s3))]) as ->.
    { unfold conn_send. by rewrite bind_read, Hc3. }
    unfold upd_pendingIncoming, finalizeConnection, upd_connections, raise.
    rewrite bind_update, bind_read.
    assert (∀ m, conn_peer (set_pendingIncoming m s3) h = remote) as Hpeer.
    { intros m. unfold conn_peer.
      change (conn (set_pendingIncoming m s3) h) with (conn s3 h). by rewrite Hc3. }
    rewrite Hpeer, bind_update, bind_read. cbn [callbacks set_connections set_pendingIncoming].
    cbn [slot_of registered].
    by destruct (onPeerConnectedCallback (callbacks s3)). }
  rewrite Haccept. cbn [fst snd]. unfold s3, s2, s1. peer_reads.
  rewrite entries_set by apply (wf_active_keys s Hwf).
  rewrite entries_get_None by apply get_delete_eq.
  repeat split.
  - unfold sent_on. rewrite !omap_app.
    destruct (onConnectionRequestCallback (callbacks s)),
      (onPeerConnectedCallback (callbacks s)); cbn; by rewrite decide_True.
  - unfold raised. rewrite !omap_app.
    by destruct (onConnectionRequestCallback (callbacks s)),
      (onPeerConnectedCallback (callbacks s)).
Qed.

Lemma incoming_invitation_completes_carol :
  entries "carol"
    (connections
       (run [PeerConnection "carol"; ConnOpen 1; ConnData 1 (handshake_init "Carol");
             AcceptConnection "carol"] (after inviting)).1)
  = [("carol", 1)].
Proof.
  refine (proj1 (proj2 (incoming_invitation_completes (after inviting)
                          (Peer.mk (Some "alice") false) "carol" "Carol" VNull _ _))).
  - exists inviting. vm_compute. reflexivity.
  - vm_compute. reflexivity.
Defined.
